(** * Fetchdata: trading calendar, volatility resolution and trinomial pricer

    A shallow embedding of [app2.py] (the option-chain pricing service) and
    the proofs of the properties its specification states.

    Modelling conventions.
    - Python [float] values are idealised as real numbers ([R]); [math.exp]
      and [math.sqrt] are the real exponential and square root.  Rounding,
      infinities, NaN and the exceptions of float operations (the
      [OverflowError] of [math.exp] for an argument above about 709.78) are
      outside that model: what is proved over [R] is proved of exact
      arithmetic, and of the runs that return.  Module [B64] gives the
      pricer in binary64 arithmetic, with those exceptions.
    - Python [int] values are [Z].
    - A [datetime.date] is the triple year/month/day; date arithmetic and
      comparison go through the proleptic Gregorian ordinal
      ([date.toordinal]), bounded by [date.max] as in the [datetime] module.
    - [str] values are [string]s of 8-bit characters.
    - An exception that escapes a function is a [Raise] result. *)

From Stdlib Require Import ZArith List String Ascii Bool Lia.
From Stdlib Require Import Reals Lra.
From Stdlib Require PrimFloat.
From Stdlib Require Import DecimalString.
From Stdlib Require Import Sorting.Sorted Sorting.Permutation.
From Equations Require Import Equations.
Import ListNotations.

Open Scope string_scope.
Open Scope Z_scope.

(* ===================================================================== *)
(** * Results of fallible code *)
(* ===================================================================== *)

(** The exceptions that can escape the modelled functions. *)
Inductive exn : Type :=
| OverflowError
| ZeroDivisionError.

Inductive result (A : Type) : Type :=
| Ok (a : A)
| Raise (e : exn).
Arguments Ok {A} a.
Arguments Raise {A} e.

Definition bind {A B : Type} (r : result A) (k : A -> result B) : result B :=
  match r with
  | Ok a => k a
  | Raise e => Raise e
  end.

(* ===================================================================== *)
(** * The [datetime] fragment the program uses *)
(* ===================================================================== *)

Record date : Type := mkdate { year : Z; month : Z; day : Z }.

Definition MINYEAR : Z := 1.
Definition MAXYEAR : Z := 9999.

(** [datetime._is_leap] *)
Definition is_leap (y : Z) : bool :=
  (y mod 4 =? 0) && (negb (y mod 100 =? 0) || (y mod 400 =? 0)).

(** [datetime._days_in_month] *)
Definition days_in_month (y m : Z) : Z :=
  if (m =? 2) && is_leap y then 29
  else nth (Z.to_nat m) [0; 31; 28; 31; 30; 31; 30; 31; 31; 30; 31; 30; 31] 0.

(** [datetime._days_before_year]: days before January 1st of year [y]. *)
Definition days_before_year (y : Z) : Z :=
  let y1 := y - 1 in
  y1 * 365 + y1 / 4 - y1 / 100 + y1 / 400.

(** [datetime._days_before_month] *)
Definition days_before_month (y m : Z) : Z :=
  nth (Z.to_nat m) [0; 0; 31; 59; 90; 120; 151; 181; 212; 243; 273; 304; 334] 0
  + (if (2 <? m) && is_leap y then 1 else 0).

(** [date.toordinal]: 1 for 01-Jan-0001. *)
Definition toordinal (dt : date) : Z :=
  days_before_year (year dt) + days_before_month (year dt) (month dt) + day dt.

(** [date.max.toordinal()], the ordinal of 31-Dec-9999. *)
Definition MAXORDINAL : Z := 3652059.

(** The check the [date] constructor performs. *)
Definition valid_date (dt : date) : bool :=
  (MINYEAR <=? year dt) && (year dt <=? MAXYEAR)
  && (1 <=? month dt) && (month dt <=? 12)
  && (1 <=? day dt) && (day dt <=? days_in_month (year dt) (month dt)).

(** [date.weekday] on an ordinal: Monday is 0, Sunday is 6. *)
Definition weekday (ord : Z) : Z := (ord + 6) mod 7.

(** [d + timedelta(days=1)] on ordinals; past [date.max] it raises. *)
Definition add_one_day (ord : Z) : result Z :=
  if (0 <? ord + 1) && (ord + 1 <=? MAXORDINAL) then Ok (ord + 1)
  else Raise OverflowError.

(** ** [strptime] and [strftime] for the format [%d-%b-%Y] *)

Definition is_digit (c : ascii) : bool :=
  let k := nat_of_ascii c in (48 <=? k)%nat && (k <=? 57)%nat.

Definition digit_val (c : ascii) : Z := Z.of_nat (nat_of_ascii c) - 48.

Definition in_range (lo hi : Z) (c : ascii) : bool :=
  is_digit c && (lo <=? digit_val c) && (digit_val c <=? hi).

(** ASCII lower-casing, as [re.IGNORECASE] and [str.lower] act on letters. *)
Definition lower (c : ascii) : ascii :=
  let k := nat_of_ascii c in
  if (65 <=? k)%nat && (k <=? 90)%nat then ascii_of_nat (k + 32) else c.

(** ASCII upper-casing ([str.upper]). *)
Definition upper (c : ascii) : ascii :=
  let k := nat_of_ascii c in
  if (97 <=? k)%nat && (k <=? 122)%nat then ascii_of_nat (k - 32) else c.

Fixpoint string_map (f : ascii -> ascii) (s : string) : string :=
  match s with
  | EmptyString => EmptyString
  | String c s' => String (f c) (string_map f s')
  end.

(** The abbreviated month names of the C locale, [calendar.month_abbr]. *)
Definition month_abbr : list string :=
  [""; "Jan"; "Feb"; "Mar"; "Apr"; "May"; "Jun";
   "Jul"; "Aug"; "Sep"; "Oct"; "Nov"; "Dec"].

(** Position of a lower-cased three-letter name in [month_abbr]. *)
Fixpoint month_index (name : string) (names : list string) (i : Z) : option Z :=
  match names with
  | [] => None
  | nm :: rest =>
      if String.eqb name (string_map lower nm) then Some i
      else month_index name rest (i + 1)
  end.

(** The directive [%d]: the alternatives
    [3[0-1] | [1-2]\d | 0[1-9] | [1-9] | " "[1-9]] followed by the literal
    [-] of the format.  Returns the day and the rest of the input. *)
Definition parse_day (s : string) : option (Z * string) :=
  match s with
  | String c1 (String "-" rest) =>
      if in_range 1 9 c1 then Some (digit_val c1, rest) else None
  | String c1 (String c2 (String "-" rest)) =>
      if (Ascii.eqb c1 "3" && in_range 0 1 c2)
         || (in_range 1 2 c1 && is_digit c2)
         || (Ascii.eqb c1 "0" && in_range 1 9 c2)
      then Some (10 * digit_val c1 + digit_val c2, rest)
      else if Ascii.eqb c1 " " && in_range 1 9 c2
      then Some (digit_val c2, rest)
      else None
  | _ => None
  end.

(** The directive [%b], case-insensitive, followed by the literal [-]. *)
Definition parse_month (s : string) : option (Z * string) :=
  match s with
  | String c1 (String c2 (String c3 (String "-" rest))) =>
      let name := String (lower c1) (String (lower c2) (String (lower c3) "")) in
      match month_index name (tl month_abbr) 1 with
      | Some m => Some (m, rest)
      | None => None
      end
  | _ => None
  end.

(** The directive [%Y]: exactly four digits, then the end of the input. *)
Definition parse_year (s : string) : option Z :=
  match s with
  | String c1 (String c2 (String c3 (String c4 EmptyString))) =>
      if is_digit c1 && is_digit c2 && is_digit c3 && is_digit c4
      then Some (1000 * digit_val c1 + 100 * digit_val c2
                 + 10 * digit_val c3 + digit_val c4)
      else None
  | _ => None
  end.

(** [datetime.strptime(s, "%d-%b-%Y").date()]; [None] stands for the
    [ValueError] of a string that does not match or of a date that does not
    exist. *)
Definition strptime (s : string) : option date :=
  match parse_day s with
  | None => None
  | Some (d, s1) =>
      match parse_month s1 with
      | None => None
      | Some (m, s2) =>
          match parse_year s2 with
          | None => None
          | Some y =>
              let dt := mkdate y m d in
              if valid_date dt then Some dt else None
          end
      end
  end.

(** Decimal rendering of an integer, as [str(int)] and [f"{k}"] do. *)
Definition str_of_Z (k : Z) : string := NilZero.string_of_int (Z.to_int k).

Definition two_digits (k : Z) : string :=
  if k <? 10 then "0" ++ str_of_Z k else str_of_Z k.

(** [d.strftime("%d-%b-%Y")] (the year is rendered without padding, as the
    C library does). *)
Definition strftime (dt : date) : string :=
  two_digits (day dt) ++ "-" ++ nth (Z.to_nat (month dt)) month_abbr ""
  ++ "-" ++ str_of_Z (year dt).

(* ===================================================================== *)
(** * Configuration of the calendar *)
(* ===================================================================== *)

Definition HOLIDAYS_2025 : list string :=
  [ "26-Feb-2025"; "14-Mar-2025"; "31-Mar-2025"; "10-Apr-2025";
    "14-Apr-2025"; "18-Apr-2025"; "01-May-2025"; "15-Aug-2025";
    "27-Aug-2025"; "02-Oct-2025"; "21-Oct-2025"; "22-Oct-2025";
    "05-Nov-2025"; "25-Dec-2025" ].

Definition TOTAL_TRADING_DAYS_2025 : Z := 247.

(* ===================================================================== *)
(** * Trading calendar *)
(* ===================================================================== *)

(** The set of holiday dates built at the start of each count: the strings
    that parse, as ordinals. *)
Fixpoint holiday_dates (hs : list string) : list Z :=
  match hs with
  | [] => []
  | h_str :: rest =>
      match strptime h_str with
      | Some hd => toordinal hd :: holiday_dates rest
      | None => holiday_dates rest
      end
  end.

Definition mem (x : Z) (l : list Z) : bool := existsb (Z.eqb x) l.

(** One day is a trading day when it is a weekday and no holiday. *)
Definition is_trading_day (holidays : list Z) (ord : Z) : bool :=
  (weekday ord <? 5) && negb (mem ord holidays).

(** Keeps the equation of a scrutinee for the termination argument. *)
Definition inspect {A : Type} (a : A) : {b : A | a = b} := exist _ a eq_refl.

(** The [while curr_date <= end_date] loop of [count_trading_days_between]. *)
Equations? count_loop (holidays : list Z) (curr_date end_date day_count : Z)
  : result Z by wf (Z.to_nat (end_date + 1 - curr_date)) lt :=
  count_loop holidays curr_date end_date day_count
    with Z_le_dec curr_date end_date := {
    | left _ with inspect (add_one_day curr_date) := {
        | exist _ (Ok next) _ =>
            count_loop holidays next end_date
              (if is_trading_day holidays curr_date
               then day_count + 1 else day_count)
        | exist _ (Raise e) _ => Raise e }
    | right _ => Ok day_count }.
Proof.
  unfold add_one_day in *.
  destruct ((0 <? curr_date + 1) && (curr_date + 1 <=? MAXORDINAL))%bool;
    [ | discriminate ].
  injection e as <-. lia.
Qed.

(** [count_trading_days_between(start_str, end_str)] *)
Definition count_trading_days_between (start_str end_str : string) : result Z :=
  match strptime start_str, strptime end_str with
  | Some start_date, Some end_date =>
      if toordinal end_date <? toordinal start_date then Ok 0
      else
        count_loop (holiday_dates HOLIDAYS_2025)
                   (toordinal start_date) (toordinal end_date) 0
  | _, _ => Ok 0
  end.

(** [calculate_time_to_expiry(expiry_str)].  The clock ([datetime.today()])
    and the module constant [TOTAL_TRADING_DAYS_2025] the body reads are
    arguments here; the service passes [TOTAL_TRADING_DAYS_2025]. *)
Definition calculate_time_to_expiry
    (total_trading_days : Z) (today : date) (expiry_str : string)
  : result (R * string * Z) :=
  match strptime expiry_str with
  | None => Ok (0%R, "0/0", 0)
  | Some expiry_date =>
      if negb (year expiry_date =? 2025) then Ok (0%R, "0/0", 0)
      else
        let today_str := strftime today in
        bind (count_trading_days_between today_str expiry_str) (fun days_left =>
        let frac_str := str_of_Z days_left ++ "/" ++ str_of_Z total_trading_days in
        if total_trading_days <=? 0 then Ok (0%R, frac_str, days_left)
        else
          let T := (IZR days_left / IZR total_trading_days)%R in
          Ok (T, frac_str, days_left))
  end.

(* ===================================================================== *)
(** * Contract records *)
(* ===================================================================== *)

(** What [float(...)] makes of the ["impliedVolatility"] entry of one option
    side: the key is missing, the conversion raises ([ValueError] or
    [TypeError]), or it yields a number (a percentage). *)
Inductive quoted_iv : Type :=
| IvMissing
| IvUnparseable
| IvNumber (iv_perc : R).

(** The per-side object of a contract record.  A missing
    ["underlyingValue"] is read as [0.0] by the orchestrator, so the field
    holds the value after that default. *)
Record option_data : Type := mkside {
  underlyingValue : R;
  impliedVolatility : quoted_iv
}.

(** One record of the option chain, as the provider interface describes
    it: every record carries an expiry string and a numeric strike; the keys
    ["CE"] and ["PE"] may be missing.  A missing ["expiryDate"] is read as
    the empty string by the orchestrator, so [expiryDate] holds the value
    after that default.  Records without a strike are outside the model. *)
Record contract : Type := mkcontract {
  expiryDate : string;
  strikePrice : R;
  CE : option option_data;
  PE : option option_data
}.

(** [c[option_type]] guarded by [option_type in c], for the two option
    sides. *)
Definition lookup_side (c : contract) (option_type : string) : option option_data :=
  if String.eqb option_type "CE" then CE c
  else if String.eqb option_type "PE" then PE c
  else None.

(* ===================================================================== *)
(** * Nearest implied volatility *)
(* ===================================================================== *)

(** The sort key [lambda x: abs(x["strikePrice"] - strike_price)]. *)
Definition strike_distance (strike_price : R) (x : contract) : R :=
  Rabs (strikePrice x - strike_price).

(** [sorted(xs, key=...)] is stable; it is modelled by the stable insertion
    sort, which computes the same list. *)
Fixpoint insert_by (key : contract -> R) (x : contract) (l : list contract)
  : list contract :=
  match l with
  | [] => [x]
  | y :: l' =>
      if Rle_dec (key x) (key y) then x :: y :: l'
      else y :: insert_by key x l'
  end.

Definition sorted (key : contract -> R) (l : list contract) : list contract :=
  fold_right (insert_by key) [] l.

(** The [for c in sorted_by_strike] loop of [get_nearest_iv]. *)
Fixpoint first_positive_iv (option_type : string) (l : list contract)
  : option (R * R) :=
  match l with
  | [] => None
  | c :: rest =>
      match lookup_side c option_type with
      | Some side =>
          match impliedVolatility side with
          | IvNumber iv_perc =>
              if Rlt_dec 0 iv_perc
              then Some ((iv_perc / 100)%R, strikePrice c)
              else first_positive_iv option_type rest
          | _ => first_positive_iv option_type rest
          end
      | None => first_positive_iv option_type rest
      end
  end.

(** [get_nearest_iv(strike_price, option_chain, option_type)]; [None] is the
    pair [(None, None)]. *)
Definition get_nearest_iv (strike_price : R) (option_chain : list contract)
    (option_type : string) : option (R * R) :=
  let sorted_by_strike := sorted (strike_distance strike_price) option_chain in
  first_positive_iv option_type sorted_by_strike.

(* ===================================================================== *)
(** * Step schedule *)
(* ===================================================================== *)

(** [determine_n_steps(IV, T, is_index, is_atm)] *)
Definition determine_n_steps (IV T : R) (is_index is_atm : bool) : list Z :=
  if Rgt_dec IV 0.4 then [10; 20; 50; 100; 200; 400]
  else if Rgt_dec IV 0.2 then [10; 20; 50; 100; 200]
  else if Rgt_dec IV 0.1 then [4; 10; 20; 40; 100]
  else if Rlt_dec T 0.05 then [4; 10; 20; 40; 50]
  else if is_index && is_atm then [10; 20; 50; 100; 200]
  else [4; 10; 20; 40].

(* ===================================================================== *)
(** * Trinomial lattice pricer *)
(* ===================================================================== *)

(** The dictionary [trinomial_single_step] returns, with its keys. *)
Module Step.
Record t : Type := mk {
  n : Z;
  dt : R;
  u : R;
  d : R;
  m : R;
  p_u : R;
  p_m : R;
  p_d : R;
  discount_factor : R;
  price_up : R;
  price_mid : R;
  price_down : R;
  payoff_up : R;
  payoff_mid : R;
  payoff_down : R;
  option_value_at_root : R
}.
End Step.

(** The first line of the pricer: [dt = T / n if n else 0]. *)
Definition time_increment (T : R) (n : Z) : R :=
  if n =? 0 then 0%R else (T / IZR n)%R.

(** [trinomial_single_step(S, K, r, sigma, T, q, n, option_type)] *)
Definition trinomial_single_step
    (S K r sigma T q : R) (n : Z) (option_type : string) : Step.t :=
  let dt := time_increment T n in
  if Rle_dec dt 0 then
    Step.mk n 0 1 1 1 0 0 0 1 S S S 0 0 0 0
  else
    let u := exp (sigma * sqrt (2 * dt)) in
    let d := (1 / u)%R in
    let m := 1%R in
    let exp_rq := exp ((r - q) * dt) in
    let numerator := (exp_rq - d)%R in
    let denominator := (u - d)%R in
    let '(p_u, p_m, p_d) :=
      if Rlt_dec (Rabs denominator) 1e-14 then
        ((1 / 3)%R, (1 / 3)%R, (1 / 3)%R)
      else
        let frac := (numerator / denominator)%R in
        let p_u := (0.5 * (frac ^ 2))%R in
        let p_m := (1 - (frac ^ 2))%R in
        let p_d := (1 - p_u - p_m)%R in
        (p_u, p_m, p_d) in
    let discount_factor := exp (- r * dt) in
    let price_up := (S * u)%R in
    let price_mid := (S * m)%R in
    let price_down := (S * d)%R in
    let '(payoff_up, payoff_mid, payoff_down) :=
      if String.eqb option_type "CE" then
        (Rmax 0 (price_up - K), Rmax 0 (price_mid - K), Rmax 0 (price_down - K))
      else
        (Rmax 0 (K - price_up), Rmax 0 (K - price_mid), Rmax 0 (K - price_down)) in
    let option_value_root :=
      (discount_factor
       * (p_u * payoff_up + p_m * payoff_mid + p_d * payoff_down))%R in
    Step.mk n dt u d m p_u p_m p_d discount_factor
            price_up price_mid price_down
            payoff_up payoff_mid payoff_down option_value_root.

(** [trinomial_tree_price(S, K, r, sigma, T, q, n_values, option_type)] *)
Definition trinomial_tree_price
    (S K r sigma T q : R) (n_values : list Z) (option_type : string)
  : list Step.t :=
  let sigma := if Rle_dec sigma 0 then 0.01%R else sigma in
  map (fun n => trinomial_single_step S K r sigma T q n option_type) n_values.

(* ===================================================================== *)
(** * The pricer in binary64 arithmetic *)
(* ===================================================================== *)

(** [trinomial_single_step] once more, on IEEE binary64 numbers as the
    program runs it.  The arithmetic is the kernel's binary64 arithmetic
    (round to nearest even, as Python's [float]); [math.sqrt] is the
    correctly rounded square root.  [math.exp] and the power behind [**]
    are functions of the C library, whose results IEEE 754 does not fix:
    they are parameters, together with the [OverflowError] they can
    raise. *)
Module B64.
Import PrimFloat.
Local Open Scope float_scope.

(** The dictionary returned, with binary64 values. *)
Module Step.
Record t : Type := mk {
  n : Z;
  dt : float;
  u : float;
  d : float;
  m : float;
  p_u : float;
  p_m : float;
  p_d : float;
  discount_factor : float;
  price_up : float;
  price_mid : float;
  price_down : float;
  payoff_up : float;
  payoff_mid : float;
  payoff_down : float;
  option_value_at_root : float
}.
End Step.

(** [float(n)] for a step count; exact below 2^53. *)
Fixpoint float_of_positive (p : positive) : float :=
  match p with
  | xH => 1
  | xO p' => 2 * float_of_positive p'
  | xI p' => 2 * float_of_positive p' + 1
  end.

Definition float_of_int (z : Z) : float :=
  match z with
  | Z0 => 0
  | Zpos p => float_of_positive p
  | Zneg p => - float_of_positive p
  end.

(** [a / b]: a zero divisor raises. *)
Definition float_div (a b : float) : result float :=
  if b =? 0 then Raise ZeroDivisionError else Ok (a / b).

(** [max(0.0, x)]: the second argument wins only when it is greater. *)
Definition max_0 (x : float) : float := if 0 <? x then x else 0.

Section Libm.

Variable math_exp : float -> result float.
Variable float_pow : float -> float -> result float.

(** [trinomial_single_step(S, K, r, sigma, T, q, n, option_type)] *)
Definition trinomial_single_step
    (S K r sigma T q : float) (n : Z) (option_type : string) : result Step.t :=
  bind (if (n =? 0)%Z then Ok 0 else float_div T (float_of_int n)) (fun dt =>
  if dt <=? 0 then
    Ok (Step.mk n 0 1 1 1 0 0 0 1 S S S 0 0 0 0)
  else
    bind (math_exp (sigma * sqrt (2 * dt))) (fun u =>
    bind (float_div 1 u) (fun d =>
    let m := 1 in
    bind (math_exp ((r - q) * dt)) (fun exp_rq =>
    let numerator := exp_rq - d in
    let denominator := u - d in
    bind
      (if abs denominator <? 0x1.6849b86a12b9bp-47 then
         bind (float_div 1 3) (fun third => Ok (third, third, third))
       else
         bind (float_div numerator denominator) (fun frac =>
         bind (float_pow frac 2) (fun frac_2 =>
         let p_u := 0.5 * frac_2 in
         bind (float_pow frac 2) (fun frac_2' =>
         let p_m := 1 - frac_2' in
         let p_d := 1 - p_u - p_m in
         Ok (p_u, p_m, p_d)))))
      (fun '(p_u, p_m, p_d) =>
    bind (math_exp (- r * dt)) (fun discount_factor =>
    let price_up := S * u in
    let price_mid := S * m in
    let price_down := S * d in
    let '(payoff_up, payoff_mid, payoff_down) :=
      if String.eqb option_type "CE" then
        (max_0 (price_up - K), max_0 (price_mid - K), max_0 (price_down - K))
      else
        (max_0 (K - price_up), max_0 (K - price_mid), max_0 (K - price_down)) in
    let option_value_root :=
      discount_factor
      * (p_u * payoff_up + p_m * payoff_mid + p_d * payoff_down) in
    Ok (Step.mk n dt u d m p_u p_m p_d discount_factor
                price_up price_mid price_down
                payoff_up payoff_mid payoff_down option_value_root))))))).

End Libm.

(** The values CPython's [math.exp] returns at the three arguments the
    example below evaluates: [exp(1.0) = 2.718281828459045],
    [exp(0.032545) = 1.0330803807151265] and
    [exp(-0.032545) = 0.9679788898011716].  The table holds nothing else. *)
Definition exp_at_example (x : float) : result float :=
  if x =? 1 then Ok 0x1.5bf0a8b145769p+1
  else if x =? 0x1.0a9bcfd4bf099p-5 then Ok 0x1.0877f4b14f89ep+0
  else if x =? -0x1.0a9bcfd4bf099p-5 then Ok 0x1.ef9aedd5d42eep-1
  else Ok nan.

(** The value of [0.28301576918977495 ** 2] in CPython,
    [0.08009792561007996].  The table holds nothing else. *)
Definition pow_at_example (x y : float) : result float :=
  if (x =? 0x1.21cee2c3b0813p-2) && (y =? 2) then Ok 0x1.4814c32f9051dp-4
  else Ok nan.

(** The example: spot and strike 100, rate 0.06509, volatility 1, one year
    in two steps, no yield, a call. *)
Definition example_step : result Step.t :=
  trinomial_single_step exp_at_example pow_at_example
                        100 100 0x1.0a9bcfd4bf099p-4 1 1 0 2 "CE".

(** [a == b] on floats. *)
Definition float_eq (a b : float) : bool := a =? b.

(** The result comes from the formula branch: [dt > 0] and
    [abs(u - d) < 1e-14] is false. *)
Definition in_formula_branch (res : Step.t) : bool :=
  (0 <? Step.dt res)
  && negb (abs (Step.u res - Step.d res) <? 0x1.6849b86a12b9bp-47).

(** [0.04004896280503998] and [0.04004896280504], three units in the last
    place apart. *)
Definition example_p_u : float := 0x1.4814c32f9051dp-5.
Definition example_p_d : float := 0x1.4814c32f90520p-5.

End B64.

(* ===================================================================== *)
(** * Pricing orchestrator *)
(* ===================================================================== *)

Definition MANUAL_RISK_FREE_RATE : R := 0.06509%R.
Definition MANUAL_DIVIDEND_YIELD : R := 0%R.

(** The object built for one contract and option side.  The two annotation
    strings are kept as the values they are formatted from:
    [expiry_date] is [(expiry_str, T, fraction_str)] and [IV] is
    [(iv_raw, iv_decimal, used_iv_status)]. *)
Module Priced.
Record t : Type := mk {
  symbol : string;
  option_type : string;
  expiry_date : string * R * string;
  raw_days_to_expiry : Z;
  days_to_expiry : Z;
  day_fraction_excluding_weekends_holidays : string;
  K : R;
  S : R;
  IV : R * R * string;
  r : R;
  q : R;
  pricing_steps : list Step.t
}.
End Priced.

(** Step 2 of the loop body: calendar days to expiry, never negative, and 0
    when the expiry does not parse. *)
Definition raw_days_left_of (today : date) (expiry_str : string) : Z :=
  match strptime expiry_str with
  | Some expiry_d =>
      let raw_days_left := toordinal expiry_d - toordinal today in
      if raw_days_left <? 0 then 0 else raw_days_left
  | None => 0
  end.

(** Step 3 of the loop body, the volatility resolution: returns
    [(iv_raw, iv_decimal, used_iv_status)]. *)
Definition resolve_iv (chain_data : list contract) (strike_price : R)
    (opt_type : string) (opt_data : option_data) : R * R * string :=
  let iv_raw :=
    match impliedVolatility opt_data with
    | IvNumber x => x
    | IvMissing => 0%R
    | IvUnparseable => 0%R
    end in
  let '(iv_raw, used_iv_status) :=
    if Rle_dec iv_raw 0 then
      match get_nearest_iv strike_price chain_data opt_type with
      | Some (nearest_iv, nearest_strike) => ((nearest_iv * 100)%R, "FAKE")
      | None => (iv_raw, "REAL")
      end
    else (iv_raw, "REAL") in
  let iv_decimal := if Rgt_dec iv_raw 0 then (iv_raw / 100)%R else 0.01%R in
  (iv_raw, iv_decimal, used_iv_status).

(** The body of [for opt_type in ["CE", "PE"]] for a side that is present. *)
Definition price_side (symbol : string) (today : date)
    (chain_data : list contract) (contract : contract)
    (opt_type : string) (opt_data : option_data) : result Priced.t :=
  let expiry_str := expiryDate contract in
  let strike_price := strikePrice contract in
  let S := underlyingValue opt_data in
  bind (calculate_time_to_expiry TOTAL_TRADING_DAYS_2025 today expiry_str)
    (fun '(T, fraction_str, days_left) =>
  let raw_days_left := raw_days_left_of today expiry_str in
  let '(iv_raw, iv_decimal, used_iv_status) :=
    resolve_iv chain_data strike_price opt_type opt_data in
  let n_list := determine_n_steps iv_decimal T true true in
  let pricing_results :=
    trinomial_tree_price S strike_price MANUAL_RISK_FREE_RATE iv_decimal T
                         MANUAL_DIVIDEND_YIELD n_list opt_type in
  Ok (Priced.mk (string_map upper symbol) opt_type
                (expiry_str, T, fraction_str)
                raw_days_left days_left fraction_str
                strike_price S
                (iv_raw, iv_decimal, used_iv_status)
                MANUAL_RISK_FREE_RATE MANUAL_DIVIDEND_YIELD
                pricing_results)).

(** The inner loop [for opt_type in ["CE", "PE"]], appending to
    [all_results]. *)
Fixpoint price_sides (symbol : string) (today : date)
    (chain_data : list contract) (contract : contract)
    (opt_types : list string) (all_results : list Priced.t)
  : result (list Priced.t) :=
  match opt_types with
  | [] => Ok all_results
  | opt_type :: rest =>
      match lookup_side contract opt_type with
      | None => price_sides symbol today chain_data contract rest all_results
      | Some opt_data =>
          bind (price_side symbol today chain_data contract opt_type opt_data)
            (fun contract_obj =>
               price_sides symbol today chain_data contract rest
                           (all_results ++ [contract_obj]))
      end
  end.

(** The outer loop [for contract in chain_data]. *)
Fixpoint price_contracts (symbol : string) (today : date)
    (chain_data : list contract) (remaining : list contract)
    (all_results : list Priced.t) : result (list Priced.t) :=
  match remaining with
  | [] => Ok all_results
  | contract :: rest =>
      bind (price_sides symbol today chain_data contract ["CE"; "PE"] all_results)
        (fun all_results' =>
           price_contracts symbol today chain_data rest all_results')
  end.

(** [fetch_and_calculate] from the point where the option chain has been
    fetched: [chain_data] is the list of records the provider returned. *)
Definition fetch_and_calculate (symbol : string) (today : date)
    (chain_data : list contract) : result (list Priced.t) :=
  price_contracts symbol today chain_data chain_data [].


(* ===================================================================== *)
(** * Reference definitions, in the words of the specification *)
(* ===================================================================== *)

(** Terminal payoff of one node: [max(0, price - K)] for a call (["CE"]),
    [max(0, K - price)] for a put. *)
Definition spec_payoff (option_type : string) (price K : R) : R :=
  if String.eqb option_type "CE" then Rmax 0 (price - K) else Rmax 0 (K - price).

(** The days [start, start + 1, ...], [k] of them, as ordinals. *)
Fixpoint days_from (start : Z) (k : nat) : list Z :=
  match k with
  | O => []
  | S k' => start :: days_from (start + 1) k'
  end.

(** The inclusive range of days [[start, end_]]; empty when [start > end_]. *)
Definition days_between (start end_ : Z) : list Z :=
  days_from start (Z.to_nat (end_ + 1 - start)).

(** Monday to Friday, by name. *)
Definition monday_to_friday (ord : Z) : bool :=
  existsb (Z.eqb (weekday ord)) [0; 1; 2; 3; 4].

(** The number of days of [[start, end_]] whose weekday is Monday to Friday
    and which are not in the holiday set. *)
Definition spec_trading_days (holidays : list Z) (start end_ : Z) : Z :=
  Z.of_nat
    (List.length
       (filter (fun ord => monday_to_friday ord && negb (mem ord holidays))
               (days_between start end_))).

(** The quoted implied volatility of a sibling on one option side, when it
    is present, parseable and positive. *)
Definition valid_iv (option_type : string) (c : contract) : option R :=
  match lookup_side c option_type with
  | Some side =>
      match impliedVolatility side with
      | IvNumber iv_perc => if Rlt_dec 0 iv_perc then Some iv_perc else None
      | _ => None
      end
  | None => None
  end.

(** [c] is the contract at position [i] that qualifies and comes first in
    the order "by distance, ties by original position" among the qualifying
    contracts of [chain]. *)
Definition nearest_qualifying (key : contract -> R) (option_type : string)
    (chain : list contract) (i : nat) (c : contract) : Prop :=
  nth_error chain i = Some c
  /\ valid_iv option_type c <> None
  /\ forall (j : nat) (c' : contract),
       nth_error chain j = Some c' -> valid_iv option_type c' <> None ->
       (key c < key c')%R \/ (key c = key c' /\ (i <= j)%nat).


(** The order of the sort: by key. *)
Definition key_le (key : contract -> R) (a b : contract) : Prop :=
  (key a <= key b)%R.

(** The first contract of [l] that qualifies on the option side. *)
Fixpoint first_valid (option_type : string) (l : list contract)
  : option contract :=
  match l with
  | [] => None
  | c :: rest =>
      match valid_iv option_type c with
      | Some _ => Some c
      | None => first_valid option_type rest
      end
  end.

(** What [get_nearest_iv] returns for a qualifying contract. *)
Definition quote_of (option_type : string) (c : contract) : option (R * R) :=
  match valid_iv option_type c with
  | Some iv_perc => Some ((iv_perc / 100)%R, strikePrice c)
  | None => None
  end.

(** The qualifying contract of least key in [l], the earliest one among
    equals, found by a scan of the original list. *)
Fixpoint best_candidate (key : contract -> R) (option_type : string)
    (l : list contract) : option contract :=
  match l with
  | [] => None
  | x :: rest =>
      match valid_iv option_type x with
      | None => best_candidate key option_type rest
      | Some _ =>
          match best_candidate key option_type rest with
          | Some y => if Rle_dec (key x) (key y) then Some x else Some y
          | None => Some x
          end
      end
  end.

(** The example of the specification: siblings at strikes 100 and 105, of
    which only the one at 105 quotes a usable implied volatility (18%) on
    the call side. *)
Definition example_chain : list contract :=
  [ mkcontract "27-Nov-2025" 100 (Some (mkside 102 (IvNumber 0))) None;
    mkcontract "27-Nov-2025" 105 (Some (mkside 102 (IvNumber 18))) None ].

(** A chain of one contract whose call side quotes an implied volatility
    of 0: no sibling can supply a substitute. *)
Definition unquoted_chain : list contract :=
  [ mkcontract "27-Nov-2025" 100 (Some (mkside 100 (IvNumber 0))) None ].


(** The strike and option side of each side a record carries, calls first. *)
Definition side_keys (c : contract) : list (R * string) :=
  match CE c with Some _ => [(strikePrice c, "CE")] | None => [] end
  ++ match PE c with Some _ => [(strikePrice c, "PE")] | None => [] end.

(** The strike and option side a priced output is for. *)
Definition output_key (contract_obj : Priced.t) : R * string :=
  (Priced.K contract_obj, Priced.option_type contract_obj).


(** Field-wise comparison of two dates, as [date.__lt__] compares the
    triples (year, month, day). *)
Definition date_lt (a b : date) : Prop :=
  year a < year b
  \/ (year a = year b
      /\ (month a < month b \/ (month a = month b /\ day a < day b))).

(** Checks a property of every integer of [[lo, hi]]. *)
Definition all_between (lo hi : Z) (p : Z -> bool) : bool :=
  forallb p (days_between lo hi).

(** The year directive reads back the rendering of [y]. *)
Definition year_reads_back (y : Z) : bool :=
  match parse_year (str_of_Z y) with
  | Some y' => y' =? y
  | None => false
  end.

(** The year directive rejects the rendering of [y]. *)
Definition year_rejected (y : Z) : bool :=
  match parse_year (str_of_Z y) with
  | Some _ => false
  | None => true
  end.

(** First and last day of 2025, as ordinals. *)
Definition FIRST_DAY_2025 : Z := toordinal (mkdate 2025 1 1).
Definition LAST_DAY_2025 : Z := toordinal (mkdate 2025 12 31).

(** Trading days from today to an expiry date, as [calculate_time_to_expiry]
    obtains them: today is rendered as a string and parsed again. *)
Definition trading_days_left (today expiry_date : date) : Z :=
  match strptime (strftime today) with
  | Some start_date =>
      spec_trading_days (holiday_dates HOLIDAYS_2025)
                        (toordinal start_date) (toordinal expiry_date)
  | None => 0
  end.

(** A contract qualifies on an option side when its quoted implied
    volatility there is usable. *)
Definition qualifies (option_type : string) (c : contract) : bool :=
  match valid_iv option_type c with
  | Some _ => true
  | None => false
  end.

(** [obj] is the object built for one side of one contract of the chain. *)
Definition output_of (symbol : string) (today : date)
    (chain_data : list contract) (obj : Priced.t) : Prop :=
  exists (contract : contract) (opt_type : string) (opt_data : option_data),
    In contract chain_data
    /\ lookup_side contract opt_type = Some opt_data
    /\ price_side symbol today chain_data contract opt_type opt_data = Ok obj.

(** What every priced output satisfies. *)
Definition well_formed_output (symbol : string) (obj : Priced.t) : Prop :=
  let T := snd (fst (Priced.expiry_date obj)) in
  let iv_decimal := snd (fst (Priced.IV obj)) in
  let used_iv_status := snd (Priced.IV obj) in
  Priced.symbol obj = string_map upper symbol
  /\ (Priced.option_type obj = "CE" \/ Priced.option_type obj = "PE")
  /\ Priced.r obj = MANUAL_RISK_FREE_RATE
  /\ Priced.q obj = MANUAL_DIVIDEND_YIELD
  /\ 0 <= Priced.raw_days_to_expiry obj
  /\ 0 <= Priced.days_to_expiry obj
  /\ (0 <= T)%R
  /\ (0 < iv_decimal)%R
  /\ (used_iv_status = "REAL" \/ used_iv_status = "FAKE")
  /\ map Step.n (Priced.pricing_steps obj)
     = determine_n_steps iv_decimal T true true
  /\ (4 <= List.length (Priced.pricing_steps obj) <= 6)%nat.

(** The six schedules of the step-schedule selector. *)
Definition schedule_1 : list Z := [10; 20; 50; 100; 200; 400].
Definition schedule_2 : list Z := [10; 20; 50; 100; 200].
Definition schedule_3 : list Z := [4; 10; 20; 40; 100].
Definition schedule_4 : list Z := [4; 10; 20; 40; 50].
Definition schedule_5 : list Z := [10; 20; 50; 100; 200].
Definition schedule_6 : list Z := [4; 10; 20; 40].

(* ===================================================================== *)
(** * The lattice pricer: proofs *)
(* ===================================================================== *)

Section Pricer.

Open Scope R_scope.

Variables (S K r sigma T q : R) (n : Z) (option_type : string).

(** Below the guard the pricer returns the fixed record. *)
Lemma step_degenerate :
  time_increment T n <= 0 ->
  trinomial_single_step S K r sigma T q n option_type
  = Step.mk n 0 1 1 1 0 0 0 1 S S S 0 0 0 0.
Proof.
  intros Hdt. unfold trinomial_single_step.
  destruct (Rle_dec (time_increment T n) 0) as [_ | Hgt]; [reflexivity | ].
  contradiction.
Qed.

(** With a non-zero step count the time increment is the quotient. *)
Lemma time_increment_quotient :
  n <> 0%Z -> time_increment T n = T / IZR n.
Proof.
  intros Hn. unfold time_increment.
  destruct (Z.eqb_spec n 0) as [E | _]; [contradiction | reflexivity].
Qed.

(** With no steps the time increment is zero. *)
Lemma time_increment_no_steps : time_increment T 0 = 0.
Proof. reflexivity. Qed.

End Pricer.

(** Unfolds the pricer past the guard [dt <= 0] when [dt] is positive. *)
Ltac step_past_guard Hdt :=
  unfold trinomial_single_step;
  match goal with
  | |- context [Rle_dec ?x 0] =>
      destruct (Rle_dec x 0) as [Hle | _];
      [ exfalso; apply (Rlt_irrefl 0); eapply Rlt_le_trans; [exact Hdt | exact Hle] | ]
  end.

(** Splits on the tolerance test on [u - d]. *)
Ltac split_on_tolerance :=
  match goal with
  | |- context [Rlt_dec (Rabs ?x) ?e] => destruct (Rlt_dec (Rabs x) e)
  end.

(** Splits on the option side. *)
Ltac split_on_side :=
  match goal with
  | |- context [String.eqb ?o "CE"] => destruct (String.eqb o "CE")
  end.

Open Scope R_scope.

(** The probabilities of a non-degenerate step sum to one. *)
Lemma step_probabilities_sum (S K r sigma T q : R) (n : Z) (option_type : string) :
  0 < time_increment T n ->
  let res := trinomial_single_step S K r sigma T q n option_type in
  Step.p_u res + Step.p_m res + Step.p_d res = 1.
Proof.
  intros Hdt. step_past_guard Hdt.
  split_on_tolerance; split_on_side; cbn; lra.
Qed.

(** The fields of a non-degenerate step that do not depend on the
    probability branch. *)
Lemma step_factors (S K r sigma T q : R) (n : Z) (option_type : string) :
  0 < time_increment T n ->
  let res := trinomial_single_step S K r sigma T q n option_type in
  let dt := time_increment T n in
  Step.n res = n /\ Step.dt res = dt
  /\ Step.u res = exp (sigma * sqrt (2 * dt))
  /\ Step.d res = 1 / Step.u res
  /\ Step.m res = 1
  /\ Step.discount_factor res = exp (- r * dt)
  /\ Step.price_up res = S * Step.u res
  /\ Step.price_mid res = S * Step.m res
  /\ Step.price_down res = S * Step.d res.
Proof.
  intros Hdt. step_past_guard Hdt.
  split_on_tolerance; split_on_side; cbn; repeat split; reflexivity.
Qed.

(** The payoffs and the root value of a non-degenerate step. *)
Lemma step_valuation (S K r sigma T q : R) (n : Z) (option_type : string) :
  0 < time_increment T n ->
  let res := trinomial_single_step S K r sigma T q n option_type in
  Step.payoff_up res = spec_payoff option_type (Step.price_up res) K
  /\ Step.payoff_mid res = spec_payoff option_type (Step.price_mid res) K
  /\ Step.payoff_down res = spec_payoff option_type (Step.price_down res) K
  /\ Step.option_value_at_root res
     = Step.discount_factor res
       * (Step.p_u res * Step.payoff_up res
          + Step.p_m res * Step.payoff_mid res
          + Step.p_d res * Step.payoff_down res).
Proof.
  intros Hdt. step_past_guard Hdt. unfold spec_payoff.
  split_on_tolerance; split_on_side; cbn; repeat split; reflexivity.
Qed.

(** The probabilities of a non-degenerate step, by branch. *)
Lemma step_probabilities (S K r sigma T q : R) (n : Z) (option_type : string) :
  0 < time_increment T n ->
  let res := trinomial_single_step S K r sigma T q n option_type in
  let frac := (exp ((r - q) * Step.dt res) - Step.d res)
              / (Step.u res - Step.d res) in
  (Rabs (Step.u res - Step.d res) < 1e-14 ->
   Step.p_u res = 1 / 3 /\ Step.p_m res = 1 / 3 /\ Step.p_d res = 1 / 3)
  /\ (~ Rabs (Step.u res - Step.d res) < 1e-14 ->
      Step.p_u res = 0.5 * frac ^ 2
      /\ Step.p_m res = 1 - frac ^ 2
      /\ Step.p_d res = 1 - Step.p_u res - Step.p_m res).
Proof.
  intros Hdt. step_past_guard Hdt.
  split_on_tolerance; split_on_side; cbn; split; intros Htol;
    try contradiction; repeat split; reflexivity.
Qed.

(** [exp 1] is above 2, so an up factor of [exp 1] is far from its inverse. *)
Lemma exp_1_gt_2 : 2 < exp 1.
Proof. pose proof (exp_ineq1 1 ltac:(lra)). lra. Qed.

Lemma sqrt_2_half : sqrt (2 * (1 / 2)) = 1.
Proof. replace (2 * (1 / 2)) with 1 by lra. apply sqrt_1. Qed.

(** The guard [dt <= 0] in terms of the inputs: no steps, or a quotient
    [T / n] that is not positive. *)
Lemma time_increment_nonpos (T : R) (n : Z) :
  n = 0%Z \/ T / IZR n <= 0 -> time_increment T n <= 0.
Proof.
  intros [-> | Hq].
  - rewrite time_increment_no_steps. lra.
  - unfold time_increment. destruct (n =? 0)%Z; lra.
Qed.

(** C1 (as stated) fails: for an expired contract ([T = 0]) the pricer takes
    the degenerate branch, whose three probabilities are 0, so their sum is
    0 and not within [1e-9] of 1. *)
Lemma degenerate_probabilities_do_not_sum_to_one :
  let res := trinomial_single_step 100 100 0.06509 0.2 0 0 10 "CE" in
  Step.p_u res + Step.p_m res + Step.p_d res = 0
  /\ ~ Rabs (Step.p_u res + Step.p_m res + Step.p_d res - 1) <= 1e-9.
Proof.
  cbv zeta.
  rewrite step_degenerate
    by (apply time_increment_nonpos; right; lra).
  cbn. split; [lra | ].
  replace (0 + 0 + 0 - 1) with (- (1)) by lra.
  rewrite Rabs_Ropp, Rabs_R1. lra.
Qed.

(** C1 (amended): whenever the time increment is positive, the three
    probabilities of the returned record sum to exactly 1, in the
    equal-thirds branch as well as in the [frac] branch, hence within
    [1e-9]; when the time increment is not positive the three probabilities
    are 0. *)
Theorem probabilities_sum_to_one_when_dt_positive
    (S K r sigma T q : R) (n : Z) (option_type : string) :
  let res := trinomial_single_step S K r sigma T q n option_type in
  (0 < time_increment T n ->
   Step.p_u res + Step.p_m res + Step.p_d res = 1
   /\ Rabs (Step.p_u res + Step.p_m res + Step.p_d res - 1) <= 1e-9)
  /\ (time_increment T n <= 0 ->
      Step.p_u res = 0 /\ Step.p_m res = 0 /\ Step.p_d res = 0).
Proof.
  cbv zeta. split.
  - intros Hdt.
    pose proof (step_probabilities_sum S K r sigma T q n option_type Hdt) as Hsum.
    cbv zeta in Hsum. rewrite Hsum. split; [reflexivity | ].
    replace (1 - 1) with 0 by lra. rewrite Rabs_R0. lra.
  - intros Hdt. rewrite (step_degenerate _ _ _ _ _ _ _ _ Hdt). cbn.
    repeat split; reflexivity.
Qed.

Lemma probabilities_sum_to_one_when_dt_positive_witness :
  let res := trinomial_single_step 100 100 0.06509 1 1 0 2 "CE" in
  0 < time_increment 1 2
  /\ Step.p_u res + Step.p_m res + Step.p_d res = 1.
Proof.
  assert (H : 0 < time_increment 1 2) by (cbn; lra).
  split; [exact H | ].
  exact (proj1 (proj1 (probabilities_sum_to_one_when_dt_positive
                         100 100 0.06509 1 1 0 2 "CE") H)).
Defined.

(** C2: for a non-degenerate input ([n] non-zero and [dt = T / n > 0]) the
    root value is [exp(-r dt) (p_u payoff_up + p_m payoff_mid + p_d
    payoff_down)] with [dt = T / n], the payoffs are [max(0, price - K)]
    for a call and [max(0, K - price)] for a put, at the node prices [S u],
    [S m], [S d], with [u = exp(sigma sqrt(2 dt))], [d = 1 / u], [m = 1]. *)
Theorem root_value_is_single_period_expectation
    (S K r sigma T q : R) (n : Z) (option_type : string) :
  n <> 0%Z -> 0 < T / IZR n ->
  let res := trinomial_single_step S K r sigma T q n option_type in
  let dt := T / IZR n in
  let u := exp (sigma * sqrt (2 * dt)) in
  let d := 1 / u in
  let m := 1 in
  Step.dt res = dt
  /\ Step.u res = u /\ Step.d res = d /\ Step.m res = m
  /\ Step.price_up res = S * u
  /\ Step.price_mid res = S * m
  /\ Step.price_down res = S * d
  /\ Step.payoff_up res = spec_payoff option_type (S * u) K
  /\ Step.payoff_mid res = spec_payoff option_type (S * m) K
  /\ Step.payoff_down res = spec_payoff option_type (S * d) K
  /\ Step.option_value_at_root res
     = exp (- r * dt)
       * (Step.p_u res * Step.payoff_up res
          + Step.p_m res * Step.payoff_mid res
          + Step.p_d res * Step.payoff_down res).
Proof.
  intros Hn Hq. cbv zeta.
  assert (Hdt : 0 < time_increment T n)
    by (rewrite time_increment_quotient by exact Hn; exact Hq).
  pose proof (step_factors S K r sigma T q n option_type Hdt) as Hf.
  pose proof (step_valuation S K r sigma T q n option_type Hdt) as Hv.
  cbv zeta in Hf, Hv.
  rewrite time_increment_quotient in Hf by exact Hn.
  destruct Hf as (_ & Hdt' & Hu & Hd & Hm & Hdf & Hpu & Hpm & Hpd).
  destruct Hv as (Hyu & Hym & Hyd & Hroot).
  rewrite Hroot, Hyu, Hym, Hyd, Hpu, Hpm, Hpd, Hdf, Hd, Hm, Hu.
  repeat split; try reflexivity; assumption.
Qed.

Lemma root_value_is_single_period_expectation_witness :
  let res := trinomial_single_step 100 100 MANUAL_RISK_FREE_RATE 1 1 0 2 "PE" in
  Step.option_value_at_root res
  = exp (- MANUAL_RISK_FREE_RATE * (1 / IZR 2))
    * (Step.p_u res * Step.payoff_up res
       + Step.p_m res * Step.payoff_mid res
       + Step.p_d res * Step.payoff_down res).
Proof.
  assert (Hn : 2%Z <> 0%Z) by discriminate.
  assert (Hq : 0 < 1 / IZR 2) by lra.
  cbv zeta.
  exact (proj2 (proj2 (proj2 (proj2 (proj2 (proj2 (proj2 (proj2 (proj2 (proj2
    (root_value_is_single_period_expectation
       100 100 MANUAL_RISK_FREE_RATE 1 1 0 2 "PE" Hn Hq))))))))))).
Defined.

(** C3: whenever [dt <= 0] (no steps, or [T / n] not positive, in particular
    a zero time to expiry) the pricer returns the fully degenerate record:
    [u = d = m = 1], zero probabilities, discount factor 1, the three
    terminal prices equal to the spot, zero payoffs and a zero root value.
    The function is total, so no exception escapes. *)
Theorem degenerate_step_record
    (S K r sigma T q : R) (n : Z) (option_type : string) :
  n = 0%Z \/ T / IZR n <= 0 ->
  let res := trinomial_single_step S K r sigma T q n option_type in
  res = Step.mk n 0 1 1 1 0 0 0 1 S S S 0 0 0 0
  /\ Step.u res = 1 /\ Step.d res = 1 /\ Step.m res = 1
  /\ Step.p_u res = 0 /\ Step.p_m res = 0 /\ Step.p_d res = 0
  /\ Step.discount_factor res = 1
  /\ Step.price_up res = S /\ Step.price_mid res = S /\ Step.price_down res = S
  /\ Step.payoff_up res = 0 /\ Step.payoff_mid res = 0
  /\ Step.payoff_down res = 0
  /\ Step.option_value_at_root res = 0.
Proof.
  intros Hdeg. cbv zeta.
  rewrite step_degenerate by (apply time_increment_nonpos; exact Hdeg).
  cbn. repeat split; reflexivity.
Qed.

Lemma degenerate_step_record_witness :
  Step.option_value_at_root
    (trinomial_single_step 100 90 0.06509 0.2 0 0 10 "CE") = 0
  /\ Step.price_up
       (trinomial_single_step 100 90 0.06509 0.2 (1 / 2) 0 0 "PE") = 100.
Proof.
  split.
  - assert (H : 10%Z = 0%Z \/ 0 / IZR 10 <= 0) by (right; lra).
    pose proof (degenerate_step_record 100 90 0.06509 0.2 0 0 10 "CE" H) as R.
    cbv zeta in R. tauto.
  - assert (H : 0%Z = 0%Z \/ 1 / 2 / IZR 0 <= 0) by (left; reflexivity).
    pose proof (degenerate_step_record 100 90 0.06509 0.2 (1 / 2) 0 0 "PE" H) as R.
    cbv zeta in R. tauto.
Defined.

(** C10 (as stated) fails in binary64: on the example (spot and strike 100,
    rate 0.06509, volatility 1, one year in two steps, a call) the program
    is in the formula branch and returns [p_u = 0.04004896280503998] and
    [p_d = 0.04004896280504], which are not equal. *)
Lemma binary64_down_probability_is_not_the_up_probability :
  exists res : B64.Step.t,
    B64.example_step = Ok res
    /\ B64.in_formula_branch res = true
    /\ B64.Step.p_u res = B64.example_p_u
    /\ B64.Step.p_d res = B64.example_p_d
    /\ B64.float_eq (B64.Step.p_d res) (B64.Step.p_u res) = false.
Proof.
  eexists. split; [vm_compute; reflexivity | ].
  vm_compute. repeat split; reflexivity.
Qed.

(** C10 (amended): in exact arithmetic, in the non-degenerate probability
    branch ([dt > 0] and [|u - d| >= 1e-14]), with
    [frac = (exp((r - q) dt) - d) / (u - d)], [u = exp(sigma sqrt(2 dt))]
    and [d = 1 / u] computed from the inputs, the returned probabilities are
    [p_u = 0.5 frac^2], [p_m = 1 - frac^2] and
    [p_d = 1 - p_u - p_m = 0.5 frac^2 = p_u], for every input. *)
Theorem up_and_down_probabilities_equal
    (S K r sigma T q : R) (n : Z) (option_type : string) :
  0 < time_increment T n ->
  let dt := time_increment T n in
  let u := exp (sigma * sqrt (2 * dt)) in
  let d := 1 / u in
  let frac := (exp ((r - q) * dt) - d) / (u - d) in
  Rabs (u - d) >= 1e-14 ->
  let res := trinomial_single_step S K r sigma T q n option_type in
  Step.p_u res = 0.5 * frac ^ 2
  /\ Step.p_m res = 1 - frac ^ 2
  /\ Step.p_d res = 1 - Step.p_u res - Step.p_m res
  /\ Step.p_d res = 0.5 * frac ^ 2
  /\ Step.p_d res = Step.p_u res.
Proof.
  intros Hdt dt u d frac Htol res.
  destruct (step_factors S K r sigma T q n option_type Hdt)
    as (_ & Hdtf & Hu & Hd & _).
  destruct (step_probabilities S K r sigma T q n option_type Hdt) as [_ Hp].
  fold res in Hdtf, Hu, Hd, Hp. fold dt in Hdtf, Hu.
  fold u in Hu. rewrite Hu in Hd. fold d in Hd.
  rewrite Hdtf, Hu, Hd in Hp. fold frac in Hp.
  destruct Hp as (Hpu & Hpm & Hpd); [ lra | ].
  rewrite Hpd, Hpm, Hpu. repeat split; lra.
Qed.

(** An up factor of [exp 1] against a down factor of [1 / exp 1]: the spread
    is far above the tolerance. *)
Lemma spread_at_exp_1 : Rabs (exp 1 - 1 / exp 1) >= 1e-14.
Proof.
  pose proof exp_1_gt_2 as H2.
  assert (Hinv : 1 / exp 1 < 1).
  { apply (Rmult_lt_reg_r (exp 1)); [lra | ].
    unfold Rdiv. rewrite Rmult_assoc, Rinv_l by lra. lra. }
  rewrite Rabs_right by lra. lra.
Qed.

Lemma up_and_down_probabilities_equal_witness :
  let res := trinomial_single_step 100 100 MANUAL_RISK_FREE_RATE 1 1 0 2 "CE" in
  0 < time_increment 1 2
  /\ Rabs (exp (1 * sqrt (2 * time_increment 1 2))
           - 1 / exp (1 * sqrt (2 * time_increment 1 2))) >= 1e-14
  /\ Step.p_d res = Step.p_u res.
Proof.
  intros res.
  assert (Hdt : 0 < time_increment 1 2) by (cbn; lra).
  assert (Htol : Rabs (exp (1 * sqrt (2 * time_increment 1 2))
                       - 1 / exp (1 * sqrt (2 * time_increment 1 2))) >= 1e-14).
  { replace (time_increment 1 2) with (1 / 2) by (cbn; lra).
    rewrite sqrt_2_half, Rmult_1_r. exact spread_at_exp_1. }
  split; [exact Hdt | split; [exact Htol | ] ].
  exact (proj2 (proj2 (proj2 (proj2
    (up_and_down_probabilities_equal
       100 100 MANUAL_RISK_FREE_RATE 1 1 0 2 "CE" Hdt Htol))))).
Defined.

(* ===================================================================== *)
(** * The step schedule: proofs *)
(* ===================================================================== *)

(** C7: the selection is total and follows the priority order; each rule
    applies exactly when the rules above it do not.  In particular
    [sigma = 0.45], [T = 0.01] selects the first schedule, not the
    short-maturity one. *)
Theorem determine_n_steps_priority (IV T : R) (is_index is_atm : bool) :
  let steps := determine_n_steps IV T is_index is_atm in
  (IV > 0.4 -> steps = [10; 20; 50; 100; 200; 400]%Z)
  /\ (~ IV > 0.4 -> IV > 0.2 -> steps = [10; 20; 50; 100; 200]%Z)
  /\ (~ IV > 0.2 -> IV > 0.1 -> steps = [4; 10; 20; 40; 100]%Z)
  /\ (~ IV > 0.1 -> T < 0.05 -> steps = [4; 10; 20; 40; 50]%Z)
  /\ (~ IV > 0.1 -> ~ T < 0.05 -> is_index && is_atm = true ->
      steps = [10; 20; 50; 100; 200]%Z)
  /\ (~ IV > 0.1 -> ~ T < 0.05 -> is_index && is_atm = false ->
      steps = [4; 10; 20; 40]%Z)
  /\ In steps [schedule_1; schedule_2; schedule_3;
               schedule_4; schedule_5; schedule_6]
  /\ determine_n_steps 0.45 0.01 is_index is_atm = [10; 20; 50; 100; 200; 400]%Z.
Proof.
  cbv zeta. unfold determine_n_steps.
  destruct (Rgt_dec IV 0.4) as [H4 | H4];
  [ | destruct (Rgt_dec IV 0.2) as [H2 | H2];
    [ | destruct (Rgt_dec IV 0.1) as [H1 | H1];
      [ | destruct (Rlt_dec T 0.05) as [HT | HT];
        [ | destruct (is_index && is_atm) eqn:Hidx ] ] ] ];
  (repeat split;
   [ intros; try reflexivity; try discriminate; try lra ..
   | cbn; tauto
   | destruct (Rgt_dec 0.45 0.4) as [_ | Hn]; [reflexivity | lra] ]).
Qed.

Lemma determine_n_steps_priority_witness :
  determine_n_steps 0.45 0.01 true true = [10; 20; 50; 100; 200; 400]%Z
  /\ determine_n_steps 0.05 0.01 true true = [4; 10; 20; 40; 50]%Z.
Proof.
  split.
  - apply (proj1 (determine_n_steps_priority 0.45 0.01 true true)). lra.
  - apply (proj1 (proj2 (proj2 (proj2
             (determine_n_steps_priority 0.05 0.01 true true))))); lra.
Defined.

(* ===================================================================== *)
(** * The trading calendar: proofs *)
(* ===================================================================== *)

Open Scope Z_scope.

Lemma weekday_range (ord : Z) : 0 <= weekday ord < 7.
Proof. unfold weekday. apply Z.mod_pos_bound. lia. Qed.

(** The loop's weekday test is the test "Monday to Friday". *)
Lemma monday_to_friday_iff (ord : Z) :
  monday_to_friday ord = (weekday ord <? 5).
Proof.
  unfold monday_to_friday. pose proof (weekday_range ord) as Hr.
  cbn [existsb].
  destruct (Z.ltb_spec (weekday ord) 5) as [Hlt | Hge].
  - assert (Hc : weekday ord = 0 \/ weekday ord = 1 \/ weekday ord = 2
                 \/ weekday ord = 3 \/ weekday ord = 4) by lia.
    destruct Hc as [-> | [-> | [-> | [-> | ->]]]]; reflexivity.
  - repeat (rewrite (proj2 (Z.eqb_neq _ _)) by lia). reflexivity.
Qed.

Lemma days_between_empty (start end_ : Z) :
  end_ < start -> days_between start end_ = [].
Proof.
  intros H. unfold days_between.
  replace (Z.to_nat (end_ + 1 - start)) with O by lia. reflexivity.
Qed.

Lemma days_between_cons (start end_ : Z) :
  start <= end_ -> days_between start end_ = start :: days_between (start + 1) end_.
Proof.
  intros H. unfold days_between.
  replace (Z.to_nat (end_ + 1 - start))
    with (Datatypes.S (Z.to_nat (end_ + 1 - (start + 1)))) by lia.
  reflexivity.
Qed.

Lemma in_days_from (k : nat) (start ord : Z) :
  In ord (days_from start k) <-> start <= ord < start + Z.of_nat k.
Proof.
  revert start. induction k as [ | k IH]; intros start; cbn [days_from In].
  - lia.
  - rewrite IH. lia.
Qed.

(** The days of the range are exactly the days from [start] to [end_]. *)
Lemma in_days_between (start end_ ord : Z) :
  In ord (days_between start end_) <-> start <= ord <= end_.
Proof. unfold days_between. rewrite in_days_from. lia. Qed.

Lemma spec_trading_days_empty (holidays : list Z) (start end_ : Z) :
  end_ < start -> spec_trading_days holidays start end_ = 0.
Proof.
  intros H. unfold spec_trading_days. rewrite days_between_empty by exact H.
  reflexivity.
Qed.

Lemma spec_trading_days_step (holidays : list Z) (start end_ : Z) :
  start <= end_ ->
  spec_trading_days holidays start end_
  = (if is_trading_day holidays start then 1 else 0)
    + spec_trading_days holidays (start + 1) end_.
Proof.
  intros H. unfold spec_trading_days, is_trading_day.
  rewrite days_between_cons by exact H. cbn [filter].
  rewrite monday_to_friday_iff.
  destruct ((weekday start <? 5) && negb (mem start holidays));
    cbn [List.length]; lia.
Qed.

(** The loop adds the trading days of [[curr_date, end_date]] to the
    counter, provided the day after [end_date] exists. *)
Lemma count_loop_counts (holidays : list Z) (end_date : Z) :
  end_date < MAXORDINAL ->
  forall (k : nat) (curr_date day_count : Z),
    Z.to_nat (end_date + 1 - curr_date) = k ->
    0 <= curr_date ->
    count_loop holidays curr_date end_date day_count
    = Ok (day_count + spec_trading_days holidays curr_date end_date).
Proof.
  intros Hmax k. induction k as [ | k IH]; intros curr_date day_count Hk Hpos.
  - simp count_loop. destruct (Z_le_dec curr_date end_date) as [Hle | Hgt]; cbn.
    + lia.
    + rewrite spec_trading_days_empty by lia. f_equal. lia.
  - simp count_loop. destruct (Z_le_dec curr_date end_date) as [Hle | Hgt]; cbn.
    + unfold add_one_day.
      destruct ((0 <? curr_date + 1) && (curr_date + 1 <=? MAXORDINAL)) eqn:Hnext.
      * cbn. rewrite IH by lia.
        rewrite (spec_trading_days_step holidays curr_date end_date Hle).
        destruct (is_trading_day holidays curr_date); f_equal; lia.
      * apply andb_false_iff in Hnext. destruct Hnext as [Hn | Hn].
        -- apply Z.ltb_ge in Hn. lia.
        -- apply Z.leb_gt in Hn. lia.
    + lia.
Qed.

(** Case analysis on a month number between 1 and 12. *)
Ltac month_cases m :=
  let H := fresh "Hm" in
  assert (H : m = 1 \/ m = 2 \/ m = 3 \/ m = 4 \/ m = 5 \/ m = 6 \/ m = 7
              \/ m = 8 \/ m = 9 \/ m = 10 \/ m = 11 \/ m = 12) by lia;
  destruct H as [H | [H | [H | [H | [H | [H | [H | [H | [H | [H | [H | H]]]]]]]]]]];
  subst m.

Lemma valid_date_bounds (dt : date) :
  valid_date dt = true ->
  1 <= year dt <= 9999 /\ 1 <= month dt <= 12
  /\ 1 <= day dt <= days_in_month (year dt) (month dt).
Proof.
  unfold valid_date, MINYEAR, MAXYEAR. intros H.
  repeat (apply andb_prop in H; destruct H as [H ?]).
  repeat match goal with
         | H : (_ <=? _) = true |- _ => apply Z.leb_le in H
         end.
  lia.
Qed.

Lemma days_before_year_nonneg (y : Z) : 1 <= y -> 0 <= days_before_year y.
Proof.
  intros Hy. unfold days_before_year. cbv zeta.
  Z.div_mod_to_equations. lia.
Qed.

Lemma days_before_month_bounds (y m : Z) :
  1 <= m <= 12 -> 0 <= days_before_month y m <= 335.
Proof.
  intros Hm. unfold days_before_month.
  destruct (is_leap y); month_cases m; cbv; split; discriminate.
Qed.

Lemma days_in_month_bounds (y m : Z) : days_in_month y m <= 31.
Proof.
  unfold days_in_month.
  destruct ((m =? 2) && is_leap y); [lia | ].
  destruct (Z.to_nat m) as [ | [ | [ | [ | [ | [ | [ | [ | [ | [ | [ | [ | [ | k]]]]]]]]]]]]];
    cbn [nth]; try lia.
  destruct k; cbn; lia.
Qed.

(** A valid date has a positive ordinal. *)
Lemma toordinal_pos (dt : date) : valid_date dt = true -> 1 <= toordinal dt.
Proof.
  intros Hv. apply valid_date_bounds in Hv. unfold toordinal.
  pose proof (days_before_year_nonneg (year dt)) as Hy.
  pose proof (days_before_month_bounds (year dt) (month dt)) as Hm.
  lia.
Qed.

(** Every date of the year 2025 lies before [date.max]. *)
Lemma toordinal_2025 (dt : date) :
  valid_date dt = true -> year dt = 2025 -> toordinal dt < MAXORDINAL.
Proof.
  intros Hv Hy. apply valid_date_bounds in Hv. unfold toordinal.
  pose proof (days_before_month_bounds (year dt) (month dt)) as Hm.
  pose proof (days_in_month_bounds (year dt) (month dt)) as Hd.
  rewrite Hy in *.
  change (days_before_year 2025) with 739251. unfold MAXORDINAL. lia.
Qed.

(** [strptime] only returns dates that exist. *)
Lemma strptime_valid (s : string) (dt : date) :
  strptime s = Some dt -> valid_date dt = true.
Proof.
  unfold strptime.
  destruct (parse_day s) as [[d s1] | ]; [ | discriminate].
  destruct (parse_month s1) as [[m s2] | ]; [ | discriminate].
  destruct (parse_year s2) as [y | ]; [ | discriminate].
  destruct (valid_date (mkdate y m d)) eqn:Hv; [ | discriminate].
  intros [= <-]. exact Hv.
Qed.

(** The function once both strings have parsed. *)
Lemma count_trading_days_between_parsed
    (start_str end_str : string) (start_date end_date : date) :
  strptime start_str = Some start_date ->
  strptime end_str = Some end_date ->
  count_trading_days_between start_str end_str
  = if toordinal end_date <? toordinal start_date then Ok 0
    else count_loop (holiday_dates HOLIDAYS_2025)
                    (toordinal start_date) (toordinal end_date) 0.
Proof.
  intros Hs He. unfold count_trading_days_between. rewrite Hs, He. reflexivity.
Qed.

(** What [count_trading_days_between] returns, case by case:
    0 when a string does not parse or the start is after the end; otherwise
    the number of Monday-to-Friday non-holiday days of the inclusive range,
    provided the end is before [date.max]. *)
Lemma count_trading_days_between_cases (start_str end_str : string) :
  (strptime start_str = None \/ strptime end_str = None ->
   count_trading_days_between start_str end_str = Ok 0)
  /\ (forall start_date end_date,
        strptime start_str = Some start_date ->
        strptime end_str = Some end_date ->
        (toordinal end_date < toordinal start_date ->
         count_trading_days_between start_str end_str = Ok 0)
        /\ (toordinal end_date < MAXORDINAL ->
            count_trading_days_between start_str end_str
            = Ok (spec_trading_days (holiday_dates HOLIDAYS_2025)
                                    (toordinal start_date) (toordinal end_date)))).
Proof.
  unfold count_trading_days_between. split.
  - intros [-> | ->]; [reflexivity | ].
    destruct (strptime start_str); reflexivity.
  - intros start_date end_date Hs He.
    pose proof (toordinal_pos _ (strptime_valid _ _ Hs)) as Hpos.
    rewrite Hs, He. split.
    + intros Hlt. apply Z.ltb_lt in Hlt. rewrite Hlt. reflexivity.
    + intros Hmax.
      destruct (Z.ltb_spec (toordinal end_date) (toordinal start_date)) as [Hlt | Hge].
      * rewrite spec_trading_days_empty by exact Hlt. reflexivity.
      * rewrite (count_loop_counts _ _ Hmax _ _ _ eq_refl) by lia.
        reflexivity.
Qed.

(** At the last day of the calendar the loop counts the day and then fails
    to step past it. *)
Lemma count_loop_overflow (holidays : list Z) (day_count : Z) :
  count_loop holidays MAXORDINAL MAXORDINAL day_count = Raise OverflowError.
Proof. simp count_loop. reflexivity. Qed.

(** With a start that is not after it, an end at [date.max] makes the count
    raise. *)
Lemma count_loop_raises_at_max (holidays : list Z) :
  forall (k : nat) (curr_date day_count : Z),
    Z.to_nat (MAXORDINAL - curr_date) = k ->
    0 <= curr_date <= MAXORDINAL ->
    count_loop holidays curr_date MAXORDINAL day_count = Raise OverflowError.
Proof.
  induction k as [ | k IH]; intros curr_date day_count Hk Hr.
  - replace curr_date with MAXORDINAL by lia. apply count_loop_overflow.
  - simp count_loop.
    destruct (Z_le_dec curr_date MAXORDINAL) as [Hle | Hgt]; [ | lia]. cbn.
    unfold add_one_day.
    destruct ((0 <? curr_date + 1) && (curr_date + 1 <=? MAXORDINAL)) eqn:Hnext.
    + cbn. apply IH; lia.
    + apply andb_false_iff in Hnext. destruct Hnext as [Hn | Hn].
      * apply Z.ltb_ge in Hn. lia.
      * apply Z.leb_gt in Hn. lia.
Qed.

(** C6, evaluated at the end of the calendar: for the well-formed pair
    ("31-Dec-9999", "31-Dec-9999") the function does not return the count
    (1, a Friday that is no holiday) but raises [OverflowError], because the
    loop steps to the day after [date.max] before it tests the bound again.
    The same happens for every start that parses and is not after that
    end. *)
Theorem count_trading_days_between_raises_at_date_max :
  strptime "31-Dec-9999" = Some (mkdate 9999 12 31)
  /\ spec_trading_days (holiday_dates HOLIDAYS_2025)
                       (toordinal (mkdate 9999 12 31))
                       (toordinal (mkdate 9999 12 31)) = 1
  /\ count_trading_days_between "31-Dec-9999" "31-Dec-9999" = Raise OverflowError
  /\ count_trading_days_between "01-Jan-2025" "31-Dec-9999" = Raise OverflowError.
Proof.
  split; [reflexivity | ]. split; [reflexivity | ]. split.
  - rewrite (count_trading_days_between_parsed
               "31-Dec-9999" "31-Dec-9999"
               (mkdate 9999 12 31) (mkdate 9999 12 31) eq_refl eq_refl).
    change (toordinal (mkdate 9999 12 31)) with MAXORDINAL.
    rewrite Z.ltb_irrefl. apply count_loop_overflow.
  - rewrite (count_trading_days_between_parsed
               "01-Jan-2025" "31-Dec-9999"
               (mkdate 2025 1 1) (mkdate 9999 12 31) eq_refl eq_refl).
    change (toordinal (mkdate 9999 12 31)) with MAXORDINAL.
    change (toordinal (mkdate 2025 1 1)) with 739252.
    change (MAXORDINAL <? 739252) with false. cbv iota.
    apply (count_loop_raises_at_max _ _ _ _ eq_refl). unfold MAXORDINAL. lia.
Qed.

(** For an expiry in 2025 the count returns, whatever the start string. *)
Lemma count_trading_days_between_2025
    (start_str end_str : string) (end_date : date) :
  strptime end_str = Some end_date -> year end_date = 2025 ->
  exists days_left : Z,
    count_trading_days_between start_str end_str = Ok days_left.
Proof.
  intros He Hy.
  pose proof (toordinal_2025 _ (strptime_valid _ _ He) Hy) as Hmax.
  destruct (count_trading_days_between_cases start_str end_str) as [Hnone Hsome].
  destruct (strptime start_str) as [start_date | ] eqn:Hs.
  - destruct (Hsome start_date end_date eq_refl He) as [_ Hcount].
    eexists. apply Hcount. exact Hmax.
  - exists 0. apply Hnone. left. reflexivity.
Qed.

(** Three trading days from Wednesday 01-Jan-2025 to Friday 03-Jan-2025. *)
Lemma count_first_days_of_2025 :
  count_trading_days_between (strftime (mkdate 2025 1 1)) "03-Jan-2025" = Ok 3.
Proof. vm_compute. reflexivity. Qed.

(** C5 (as stated) fails in its third case: with a total trading-day count
    of 0, an expiry of 03-Jan-2025 seen on 01-Jan-2025 yields
    [(0.0, "3/0", 3)], not [(0.0, "0/0", 0)]. *)
Lemma time_to_expiry_zero_total_keeps_days :
  calculate_time_to_expiry 0 (mkdate 2025 1 1) "03-Jan-2025"
  = Ok (0%R, "3/0", 3)
  /\ calculate_time_to_expiry 0 (mkdate 2025 1 1) "03-Jan-2025"
     <> Ok (0%R, "0/0", 0).
Proof.
  assert (E : calculate_time_to_expiry 0 (mkdate 2025 1 1) "03-Jan-2025"
              = Ok (0%R, "3/0", 3)).
  { unfold calculate_time_to_expiry.
    change (strptime "03-Jan-2025") with (Some (mkdate 2025 1 3)).
    cbv beta iota. change (negb (year (mkdate 2025 1 3) =? 2025)) with false.
    cbv iota zeta. rewrite count_first_days_of_2025. reflexivity. }
  split; [exact E | ]. rewrite E. intros H. discriminate H.
Qed.

(** C5 (amended): [calculate_time_to_expiry] returns [(0.0, "0/0", 0)] when
    the expiry string does not parse and when the expiry's year is not 2025.
    Otherwise, with [days_left] the trading days from today to the expiry,
    it returns [(0.0, "days_left/total", days_left)] when the total
    trading-day count is [<= 0], and
    [(days_left / total, "days_left/total", days_left)] when it is
    positive. *)
Theorem calculate_time_to_expiry_cases
    (total_trading_days : Z) (today : date) (expiry_str : string) :
  let result := calculate_time_to_expiry total_trading_days today expiry_str in
  (strptime expiry_str = None -> result = Ok (0%R, "0/0", 0))
  /\ (forall expiry_date,
        strptime expiry_str = Some expiry_date -> year expiry_date <> 2025 ->
        result = Ok (0%R, "0/0", 0))
  /\ (forall expiry_date,
        strptime expiry_str = Some expiry_date -> year expiry_date = 2025 ->
        exists days_left : Z,
          count_trading_days_between (strftime today) expiry_str = Ok days_left
          /\ let frac_str :=
               str_of_Z days_left ++ "/" ++ str_of_Z total_trading_days in
             (total_trading_days <= 0 ->
              result = Ok (0%R, frac_str, days_left))
             /\ (0 < total_trading_days ->
                 result = Ok ((IZR days_left / IZR total_trading_days)%R,
                              frac_str, days_left))).
Proof.
  cbv zeta. unfold calculate_time_to_expiry. split; [ | split].
  - intros ->. reflexivity.
  - intros expiry_date -> Hy.
    rewrite (proj2 (Z.eqb_neq _ _) Hy). reflexivity.
  - intros expiry_date He Hy.
    destruct (count_trading_days_between_2025 (strftime today) _ _ He Hy)
      as [days_left Hcount].
    exists days_left. split; [exact Hcount | ].
    rewrite He, (proj2 (Z.eqb_eq _ _) Hy), Hcount. cbn [negb bind]. split.
    + intros Htot. rewrite (proj2 (Z.leb_le _ _) Htot). reflexivity.
    + intros Htot. rewrite (proj2 (Z.leb_gt _ _) Htot). reflexivity.
Qed.

Lemma calculate_time_to_expiry_cases_witness :
  calculate_time_to_expiry 247 (mkdate 2025 1 1) "03-Jan-2026"
  = Ok (0%R, "0/0", 0)
  /\ calculate_time_to_expiry 247 (mkdate 2025 1 1) "03-Janu-2025"
     = Ok (0%R, "0/0", 0)
  /\ exists days_left : Z,
       count_trading_days_between (strftime (mkdate 2025 1 1)) "03-Jan-2025"
       = Ok days_left
       /\ calculate_time_to_expiry 247 (mkdate 2025 1 1) "03-Jan-2025"
          = Ok ((IZR days_left / IZR 247)%R,
                str_of_Z days_left ++ "/" ++ str_of_Z 247, days_left).
Proof.
  split; [ | split].
  - apply (proj1 (proj2 (calculate_time_to_expiry_cases
                           247 (mkdate 2025 1 1) "03-Jan-2026"))
             (mkdate 2026 1 3)).
    + reflexivity.
    + discriminate.
  - apply (proj1 (calculate_time_to_expiry_cases
                    247 (mkdate 2025 1 1) "03-Janu-2025")).
    reflexivity.
  - destruct (proj2 (proj2 (calculate_time_to_expiry_cases
                              247 (mkdate 2025 1 1) "03-Jan-2025"))
                (mkdate 2025 1 3) eq_refl eq_refl)
      as (days_left & Hcount & _ & Hpos).
    exists days_left. split; [exact Hcount | ]. apply Hpos. lia.
Defined.

(* ===================================================================== *)
(** * Nearest implied volatility: proofs *)
(* ===================================================================== *)

Section StableSort.

Open Scope R_scope.

Variable key : contract -> R.

Lemma insert_by_perm (x : contract) (l : list contract) :
  Permutation (insert_by key x l) (x :: l).
Proof.
  induction l as [ | y l IH]; cbn [insert_by].
  - apply Permutation_refl.
  - destruct (Rle_dec (key x) (key y)); [apply Permutation_refl | ].
    eapply perm_trans; [apply perm_skip, IH | apply perm_swap].
Qed.

Lemma sorted_perm (l : list contract) : Permutation (sorted key l) l.
Proof.
  induction l as [ | x l IH]; cbn; [constructor | ].
  eapply perm_trans; [apply insert_by_perm | apply perm_skip, IH].
Qed.

Lemma insert_by_forall (P : contract -> Prop) (x : contract) (l : list contract) :
  P x -> Forall P l -> Forall P (insert_by key x l).
Proof.
  intros Hx Hl. induction Hl as [ | y l Hy Hl IH]; cbn [insert_by].
  - constructor; [exact Hx | constructor].
  - destruct (Rle_dec (key x) (key y)); constructor; auto.
Qed.

Lemma insert_by_sorted (x : contract) (l : list contract) :
  StronglySorted (key_le key) l -> StronglySorted (key_le key) (insert_by key x l).
Proof.
  intros Hs. induction Hs as [ | y l Hs IH Hall]; cbn [insert_by].
  - constructor; constructor.
  - destruct (Rle_dec (key x) (key y)) as [Hle | Hgt].
    + constructor; [constructor; assumption | ].
      constructor; [exact Hle | ].
      eapply Forall_impl; [ | exact Hall].
      intros c Hc. unfold key_le in *. lra.
    + constructor; [exact IH | ].
      apply insert_by_forall; [unfold key_le; lra | exact Hall].
Qed.

Lemma sorted_is_sorted (l : list contract) : StronglySorted (key_le key) (sorted key l).
Proof.
  induction l as [ | x l IH]; cbn; [constructor | ].
  apply insert_by_sorted, IH.
Qed.



End StableSort.

Section NearestSearch.

Open Scope R_scope.

Variable key : contract -> R.
Variable option_type : string.


(** One turn of the loop of [get_nearest_iv]. *)
Lemma first_positive_iv_cons (c : contract) (l : list contract) :
  first_positive_iv option_type (c :: l)
  = match quote_of option_type c with
    | Some quote => Some quote
    | None => first_positive_iv option_type l
    end.
Proof.
  cbn [first_positive_iv]. unfold quote_of, valid_iv.
  destruct (lookup_side c option_type) as [side | ]; [ | reflexivity].
  destruct (impliedVolatility side) as [ | | iv_perc]; try reflexivity.
  destruct (Rlt_dec 0 iv_perc); reflexivity.
Qed.

(** The loop of [get_nearest_iv] returns the quote of the first qualifying
    contract. *)
Lemma first_positive_iv_first_valid (l : list contract) :
  first_positive_iv option_type l
  = match first_valid option_type l with
    | Some c => quote_of option_type c
    | None => None
    end.
Proof.
  induction l as [ | c l IH]; [reflexivity | ].
  rewrite first_positive_iv_cons. cbn [first_valid]. unfold quote_of at 1.
  destruct (valid_iv option_type c) as [p | ] eqn:Hc.
  - unfold quote_of. rewrite Hc. reflexivity.
  - exact IH.
Qed.

Lemma first_valid_none (l : list contract) :
  first_valid option_type l = None <-> forall c, In c l -> valid_iv option_type c = None.
Proof.
  induction l as [ | x l IH]; cbn [first_valid In].
  - split; [intros _ c [] | reflexivity].
  - destruct (valid_iv option_type x) as [p | ] eqn:Hx.
    + split; [discriminate | ].
      intros H. rewrite (H x (or_introl eq_refl)) in Hx. discriminate.
    + rewrite IH. split.
      * intros H c [<- | Hc]; [exact Hx | exact (H c Hc)].
      * intros H c Hc. apply H. right. exact Hc.
Qed.

Lemma first_valid_is_valid (l : list contract) (c : contract) :
  first_valid option_type l = Some c -> In c l /\ valid_iv option_type c <> None.
Proof.
  induction l as [ | x l IH]; cbn [first_valid In]; [discriminate | ].
  destruct (valid_iv option_type x) as [p | ] eqn:Hx.
  - intros [= <-]. split; [left; reflexivity | rewrite Hx; discriminate].
  - intros H. destruct (IH H) as [Hin Hv]. split; [right; exact Hin | exact Hv].
Qed.

(** Inserting a contract that does not qualify changes nothing. *)
Lemma first_valid_insert_invalid (x : contract) (s : list contract) :
  valid_iv option_type x = None ->
  first_valid option_type (insert_by key x s) = first_valid option_type s.
Proof.
  intros Hx. induction s as [ | y s IH]; cbn [insert_by first_valid].
  - rewrite Hx. reflexivity.
  - destruct (Rle_dec (key x) (key y)); cbn [first_valid].
    + rewrite Hx. reflexivity.
    + rewrite IH. reflexivity.
Qed.

(** Inserting a qualifying contract into a sorted list: it becomes the first
    qualifying one unless a strictly closer one is already there. *)
Lemma first_valid_insert_valid (x : contract) (s : list contract) :
  valid_iv option_type x <> None ->
  StronglySorted (key_le key) s ->
  first_valid option_type (insert_by key x s)
  = match first_valid option_type s with
    | Some y => if Rle_dec (key x) (key y) then Some x else Some y
    | None => Some x
    end.
Proof.
  intros Hx Hs. induction Hs as [ | y s Hs IH Hall]; cbn [insert_by first_valid].
  - destruct (valid_iv option_type x); [reflexivity | contradiction].
  - destruct (Rle_dec (key x) (key y)) as [Hle | Hgt]; cbn [first_valid].
    + destruct (valid_iv option_type x) as [p | ]; [ | contradiction].
      destruct (valid_iv option_type y) as [py | ].
      * destruct (Rle_dec (key x) (key y)); [reflexivity | contradiction].
      * destruct (first_valid option_type s) as [z | ] eqn:Hz; [ | reflexivity].
        destruct (first_valid_is_valid _ _ Hz) as [Hin _].
        rewrite Forall_forall in Hall. specialize (Hall z Hin).
        unfold key_le in Hall.
        destruct (Rle_dec (key x) (key z)); [reflexivity | lra].
    + destruct (valid_iv option_type y) as [py | ].
      * destruct (Rle_dec (key x) (key y)); [contradiction | reflexivity].
      * exact IH.
Qed.

(** The first qualifying contract of the sorted list is the best candidate
    of the original list. *)
Lemma first_valid_sorted (l : list contract) :
  first_valid option_type (sorted key l) = best_candidate key option_type l.
Proof.
  induction l as [ | x l IH]; cbn [sorted fold_right best_candidate]; [reflexivity | ].
  change (fold_right (insert_by key) [] l) with (sorted key l).
  destruct (valid_iv option_type x) as [p | ] eqn:Hx.
  - rewrite first_valid_insert_valid.
    + rewrite IH. reflexivity.
    + rewrite Hx. discriminate.
    + apply sorted_is_sorted.
  - rewrite first_valid_insert_invalid by exact Hx. exact IH.
Qed.

Lemma best_candidate_none (l : list contract) :
  best_candidate key option_type l = None <-> forall c, In c l -> valid_iv option_type c = None.
Proof.
  rewrite <- first_valid_sorted, first_valid_none. split; intros H c Hc; apply H.
  - apply (Permutation_in _ (Permutation_sym (sorted_perm key l))). exact Hc.
  - apply (Permutation_in _ (sorted_perm key l)). exact Hc.
Qed.

(** The best candidate qualifies and comes first "by key, then by position"
    among the qualifying contracts. *)
Lemma best_candidate_nearest (l : list contract) (c : contract) :
  best_candidate key option_type l = Some c ->
  exists i : nat, nearest_qualifying key option_type l i c.
Proof.
  revert c. induction l as [ | x l IH]; intros c; cbn [best_candidate]; [discriminate | ].
  destruct (valid_iv option_type x) as [p | ] eqn:Hx.
  - destruct (best_candidate key option_type l) as [y | ] eqn:Hy.
    + destruct (IH y eq_refl) as (iy & Hnth & Hvy & Hmin).
      destruct (Rle_dec (key x) (key y)) as [Hle | Hgt]; intros [= <-].
      * exists O. split; [reflexivity | ]. split; [rewrite Hx; discriminate | ].
        intros [ | j] c' Hj Hv'.
        -- injection Hj as <-. right. split; [reflexivity | apply Nat.le_refl].
        -- destruct (Hmin j c' Hj Hv') as [Hlt | [Heq _]].
           ++ left. lra.
           ++ destruct (Rle_lt_or_eq_dec _ _ Hle) as [Hlt | Heq'].
              ** left. lra.
              ** right. split; [lra | apply Nat.le_0_l].
      * exists (Datatypes.S iy). split; [exact Hnth | ]. split; [exact Hvy | ].
        intros [ | j] c' Hj Hv'.
        -- injection Hj as <-. left. lra.
        -- destruct (Hmin j c' Hj Hv') as [Hlt | [Heq Hij]].
           ++ left. exact Hlt.
           ++ right. split; [exact Heq | apply le_n_S; exact Hij].
    + intros [= <-]. exists O. split; [reflexivity | ].
      split; [rewrite Hx; discriminate | ].
      intros [ | j] c' Hj Hv'.
      * injection Hj as <-. right. split; [reflexivity | apply Nat.le_refl].
      * exfalso. apply Hv'.
        apply (proj1 (best_candidate_none l) Hy). eapply nth_error_In. exact Hj.
  - intros Hc. destruct (IH c Hc) as (i & Hnth & Hv & Hmin).
    exists (Datatypes.S i). split; [exact Hnth | ]. split; [exact Hv | ].
    intros [ | j] c' Hj Hv'.
    + injection Hj as <-. rewrite Hx in Hv'. contradiction.
    + destruct (Hmin j c' Hj Hv') as [Hlt | [Heq Hij]].
      * left. exact Hlt.
      * right. split; [exact Heq | apply le_n_S; exact Hij].
Qed.

(** Only one position can be the nearest qualifying one. *)
Lemma nearest_qualifying_unique (l : list contract) (i i' : nat) (c c' : contract) :
  nearest_qualifying key option_type l i c ->
  nearest_qualifying key option_type l i' c' ->
  i = i' /\ c = c'.
Proof.
  intros (Hn & Hv & Hmin) (Hn' & Hv' & Hmin').
  destruct (Hmin i' c' Hn' Hv') as [Hlt | [Heq Hle]];
    destruct (Hmin' i c Hn Hv) as [Hlt' | [Heq' Hle']]; try lra.
  assert (E : i = i') by (apply Nat.le_antisymm; assumption).
  split; [exact E | ]. subst i'. rewrite Hn in Hn'. injection Hn' as ->. reflexivity.
Qed.

End NearestSearch.

Open Scope R_scope.

(** A usable quoted implied volatility is positive. *)
Lemma valid_iv_positive (option_type : string) (c : contract) (iv_perc : R) :
  valid_iv option_type c = Some iv_perc -> 0 < iv_perc.
Proof.
  unfold valid_iv.
  destruct (lookup_side c option_type) as [side | ]; [ | discriminate].
  destruct (impliedVolatility side) as [ | | x]; try discriminate.
  destruct (Rlt_dec 0 x) as [Hx | _]; [ | discriminate].
  intros [= <-]. exact Hx.
Qed.


(** What a found nearest value is: the quote of the nearest qualifying
    contract of the chain. *)
Lemma get_nearest_iv_found
    (strike_price : R) (option_chain : list contract) (option_type : string)
    (nearest_iv nearest_strike : R) :
  get_nearest_iv strike_price option_chain option_type
  = Some (nearest_iv, nearest_strike) ->
  exists (i : nat) (c : contract) (iv_perc : R),
    nearest_qualifying (strike_distance strike_price) option_type option_chain i c
    /\ valid_iv option_type c = Some iv_perc
    /\ 0 < iv_perc
    /\ nearest_iv = iv_perc / 100
    /\ nearest_strike = strikePrice c.
Proof.
  unfold get_nearest_iv.
  rewrite first_positive_iv_first_valid, first_valid_sorted.
  destruct (best_candidate (strike_distance strike_price) option_type option_chain)
    as [c | ] eqn:Hbest; [ | discriminate].
  destruct (best_candidate_nearest _ _ _ _ Hbest) as (i & Hnear).
  unfold quote_of. destruct (valid_iv option_type c) as [iv_perc | ] eqn:Hv;
    [ | discriminate].
  intros [= <- <-]. exists i, c, iv_perc.
  split; [exact Hnear | ]. split; [exact Hv | ].
  split; [exact (valid_iv_positive _ _ _ Hv) | ].
  split; reflexivity.
Qed.



(* ===================================================================== *)
(** * Volatility resolution: proofs *)
(* ===================================================================== *)

(** The three outcomes of the volatility resolution: a positive quoted
    value is used as it is and labelled REAL; otherwise the nearest usable
    sibling value is used and labelled FAKE; when there is none either, the
    decimal volatility is the floor 0.01 and the label is still REAL. *)
Lemma resolve_iv_cases
    (chain_data : list contract) (strike_price : R) (opt_type : string)
    (opt_data : option_data) :
  let quoted :=
    match impliedVolatility opt_data with
    | IvNumber x => x
    | _ => 0
    end in
  (0 < quoted ->
   resolve_iv chain_data strike_price opt_type opt_data
   = (quoted, quoted / 100, "REAL"))
  /\ (quoted <= 0 ->
      forall nearest_iv nearest_strike : R,
        get_nearest_iv strike_price chain_data opt_type
        = Some (nearest_iv, nearest_strike) ->
        resolve_iv chain_data strike_price opt_type opt_data
        = (nearest_iv * 100, nearest_iv * 100 / 100, "FAKE"))
  /\ (quoted <= 0 ->
      get_nearest_iv strike_price chain_data opt_type = None ->
      resolve_iv chain_data strike_price opt_type opt_data
      = (quoted, 0.01, "REAL")).
Proof.
  cbv zeta. unfold resolve_iv.
  set (quoted := match impliedVolatility opt_data with
                 | IvNumber x => x
                 | _ => 0
                 end).
  replace (match impliedVolatility opt_data with
           | IvMissing => 0
           | IvUnparseable => 0
           | IvNumber x => x
           end) with quoted
    by (unfold quoted; destruct (impliedVolatility opt_data); reflexivity).
  split; [ | split].
  - intros Hpos. destruct (Rle_dec quoted 0) as [Hle | _]; [lra | ].
    destruct (Rgt_dec quoted 0) as [_ | Hn]; [reflexivity | lra].
  - intros Hle nearest_iv nearest_strike Hnear.
    destruct (Rle_dec quoted 0) as [_ | Hn]; [ | contradiction].
    rewrite Hnear.
    destruct (get_nearest_iv_found _ _ _ _ _ Hnear)
      as (i & c & iv_perc & _ & _ & Hpos & -> & _).
    destruct (Rgt_dec (iv_perc / 100 * 100) 0) as [_ | Hn]; [reflexivity | lra].
  - intros Hle Hnone.
    destruct (Rle_dec quoted 0) as [_ | Hn]; [ | contradiction].
    rewrite Hnone.
    destruct (Rgt_dec quoted 0) as [Hgt | _]; [lra | reflexivity].
Qed.

(** No contract of [unquoted_chain] can supply a substitute. *)
Lemma unquoted_chain_no_nearest :
  get_nearest_iv 100 unquoted_chain "CE" = None.
Proof.
  unfold get_nearest_iv, unquoted_chain.
  rewrite first_positive_iv_first_valid, first_valid_sorted.
  cbn [best_candidate]. unfold valid_iv. cbn.
  destruct (Rlt_dec 0 0) as [H0 | _]; [lra | reflexivity].
Qed.

(** C4, evaluated where it fails: a call side quoting an implied volatility
    of 0 in a chain without any usable sibling value resolves to the floor
    0.01, and the label of that defaulted value is REAL, not FAKE. *)
Theorem floor_volatility_is_labelled_real :
  get_nearest_iv 100 unquoted_chain "CE" = None
  /\ resolve_iv unquoted_chain 100 "CE" (mkside 100 (IvNumber 0))
     = (0, 0.01, "REAL").
Proof.
  split; [exact unquoted_chain_no_nearest | ].
  destruct (resolve_iv_cases unquoted_chain 100 "CE" (mkside 100 (IvNumber 0)))
    as (_ & _ & Hfloor).
  cbn [impliedVolatility] in Hfloor.
  apply Hfloor; [lra | exact unquoted_chain_no_nearest].
Qed.

(* ===================================================================== *)
(** * The orchestrator: proofs *)
(* ===================================================================== *)

Open Scope nat_scope.

(** The time to expiry is computed without an exception, whatever the
    expiry string. *)
Lemma calculate_time_to_expiry_returns
    (total_trading_days : Z) (today : date) (expiry_str : string) :
  exists t, calculate_time_to_expiry total_trading_days today expiry_str = Ok t.
Proof.
  unfold calculate_time_to_expiry.
  destruct (strptime expiry_str) as [expiry_date | ] eqn:He; [ | eexists; reflexivity].
  destruct (Z.eqb_spec (year expiry_date) 2025) as [Hy | Hy]; cbn [negb];
    [ | eexists; reflexivity].
  destruct (count_trading_days_between_2025 (strftime today) _ _ He Hy)
    as [days_left ->].
  cbn [bind]. destruct (total_trading_days <=? 0)%Z; eexists; reflexivity.
Qed.

(** Pricing one side that is present yields one object, for that strike and
    side. *)
Lemma price_side_returns (symbol : string) (today : date)
    (chain_data : list contract) (contract : contract)
    (opt_type : string) (opt_data : option_data) :
  exists contract_obj,
    price_side symbol today chain_data contract opt_type opt_data
    = Ok contract_obj
    /\ output_key contract_obj = (strikePrice contract, opt_type).
Proof.
  unfold price_side.
  destruct (calculate_time_to_expiry_returns
              TOTAL_TRADING_DAYS_2025 today (expiryDate contract))
    as [[[T fraction_str] days_left] ->].
  cbn [bind].
  destruct (resolve_iv chain_data (strikePrice contract) opt_type opt_data)
    as [[iv_raw iv_decimal] used_iv_status].
  eexists. split; reflexivity.
Qed.

(** The inner loop appends one object per side present, calls first. *)
Lemma price_sides_outputs (symbol : string) (today : date)
    (chain_data : list contract) (contract : contract)
    (all_results : list Priced.t) :
  exists results,
    price_sides symbol today chain_data contract ["CE"; "PE"]%string all_results
    = Ok results
    /\ map output_key results
       = (map output_key all_results ++ side_keys contract)%list.
Proof.
  cbn [price_sides]. unfold side_keys.
  change (lookup_side contract "CE") with (CE contract).
  change (lookup_side contract "PE") with (PE contract).
  destruct (CE contract) as [ce | ].
  - destruct (price_side_returns symbol today chain_data contract "CE" ce)
      as (obj_ce & -> & Hce).
    cbn [bind]. destruct (PE contract) as [pe | ].
    + destruct (price_side_returns symbol today chain_data contract "PE" pe)
        as (obj_pe & -> & Hpe).
      cbn [bind]. eexists. split; [reflexivity | ].
      rewrite !map_app. cbn [map]. rewrite Hce, Hpe, <- app_assoc. reflexivity.
    + eexists. split; [reflexivity | ].
      rewrite map_app. cbn [map]. rewrite Hce. reflexivity.
  - destruct (PE contract) as [pe | ].
    + destruct (price_side_returns symbol today chain_data contract "PE" pe)
        as (obj_pe & -> & Hpe).
      cbn [bind]. eexists. split; [reflexivity | ].
      rewrite map_app. cbn [map]. rewrite Hpe. reflexivity.
    + eexists. split; [reflexivity | ]. rewrite app_nil_r. reflexivity.
Qed.

(** The outer loop appends the outputs of the remaining records in order. *)
Lemma price_contracts_outputs (symbol : string) (today : date)
    (chain_data : list contract) (remaining : list contract) :
  forall all_results : list Priced.t,
  exists results,
    price_contracts symbol today chain_data remaining all_results = Ok results
    /\ map output_key results
       = (map output_key all_results ++ flat_map side_keys remaining)%list.
Proof.
  induction remaining as [ | contract rest IH]; intros all_results;
    cbn [price_contracts flat_map].
  - eexists. split; [reflexivity | rewrite app_nil_r; reflexivity].
  - destruct (price_sides_outputs symbol today chain_data contract all_results)
      as (results1 & -> & Hkeys1).
    cbn [bind]. destruct (IH results1) as (results & -> & Hkeys).
    eexists. split; [reflexivity | ].
    rewrite Hkeys, Hkeys1, <- app_assoc. reflexivity.
Qed.






(** In binary64 the pricer has no handler around [math.exp]: when the
    first call raises, for a positive time increment, the exception leaves
    [trinomial_single_step]. *)
Lemma binary64_pricer_propagates_exp_error
    (math_exp : PrimFloat.float -> result PrimFloat.float)
    (float_pow : PrimFloat.float -> PrimFloat.float -> result PrimFloat.float)
    (S K r sigma T q dt : PrimFloat.float) (n : Z) (option_type : string)
    (e : exn) :
  (n =? 0)%Z = false ->
  B64.float_div T (B64.float_of_int n) = Ok dt ->
  PrimFloat.leb dt PrimFloat.zero = false ->
  math_exp (PrimFloat.mul sigma
              (PrimFloat.sqrt (PrimFloat.mul PrimFloat.two dt))) = Raise e ->
  B64.trinomial_single_step math_exp float_pow S K r sigma T q n option_type
  = Raise e.
Proof.
  intros Hn Hdiv Hpos Hexp. unfold B64.trinomial_single_step.
  unfold PrimFloat.zero in Hpos. unfold PrimFloat.two in Hexp.
  rewrite Hn, Hdiv. cbn [bind]. rewrite Hpos, Hexp. reflexivity.
Qed.




(* ===================================================================== *)
(** * Further properties of the calendar, the search and the pricer *)
(* ===================================================================== *)

Open Scope Z_scope.


Lemma days_before_year_succ y :
  days_before_year (y + 1) = days_before_year y + 365 + (if is_leap y then 1 else 0).
Proof.
  unfold days_before_year, is_leap. cbv zeta.
  replace (y + 1 - 1) with y by lia.
  destruct (Z.eqb_spec (y mod 4) 0); destruct (Z.eqb_spec (y mod 100) 0); destruct (Z.eqb_spec (y mod 400) 0); cbn [negb andb orb];
  Z.div_mod_to_equations; lia.
Qed.

Lemma days_before_year_mono (k : nat) (y : Z) :
  days_before_year y + 365 * Z.of_nat k <= days_before_year (y + Z.of_nat k).
Proof.
  induction k as [ | k IH].
  - replace (y + Z.of_nat 0) with y by lia. lia.
  - replace (y + Z.of_nat (Datatypes.S k)) with (y + Z.of_nat k + 1) by lia.
    rewrite days_before_year_succ. destruct (is_leap (y + Z.of_nat k)); lia.
Qed.

Lemma days_before_year_next (y y' : Z) :
  y < y' ->
  days_before_year y + 365 + (if is_leap y then 1 else 0) <= days_before_year y'.
Proof.
  intros H. rewrite <- days_before_year_succ.
  pose proof (days_before_year_mono (Z.to_nat (y' - (y + 1))) (y + 1)) as Hm.
  replace (y + 1 + Z.of_nat (Z.to_nat (y' - (y + 1)))) with y' in Hm by lia. lia.
Qed.

Lemma days_before_month_next (y m m' : Z) :
  1 <= m -> m < m' -> m' <= 12 ->
  days_before_month y m + days_in_month y m <= days_before_month y m'.
Proof.
  intros H1 H2 H3. unfold days_before_month, days_in_month.
  destruct (is_leap y); month_cases m; month_cases m';
    first [ lia | cbv; discriminate ].
Qed.

Lemma days_before_month_end (y m : Z) :
  1 <= m <= 12 ->
  days_before_month y m + days_in_month y m <= 365 + (if is_leap y then 1 else 0).
Proof.
  intros Hm. unfold days_before_month, days_in_month.
  destruct (is_leap y); month_cases m; cbv; discriminate.
Qed.

Lemma toordinal_lt (a b : date) :
  valid_date a = true -> valid_date b = true ->
  date_lt a b -> toordinal a < toordinal b.
Proof.
  intros Ha Hb Hlt. apply valid_date_bounds in Ha, Hb. unfold toordinal.
  destruct Hlt as [Hy | [Hy [Hm | [Hm Hd]]]].
  - pose proof (days_before_year_next _ _ Hy).
    pose proof (days_before_month_end (year a) (month a)).
    pose proof (days_before_month_bounds (year b) (month b)).
    lia.
  - rewrite Hy in *.
    pose proof (days_before_month_next (year b) (month a) (month b)). lia.
  - rewrite Hy, Hm in *. lia.
Qed.

Lemma date_trichotomy (a b : date) : date_lt a b \/ a = b \/ date_lt b a.
Proof.
  destruct a as [ya ma da], b as [yb mb db]. unfold date_lt. cbn.
  destruct (Z.lt_trichotomy ya yb) as [H | [H | H]]; [lia | | lia].
  destruct (Z.lt_trichotomy ma mb) as [H' | [H' | H']]; [lia | | lia].
  destruct (Z.lt_trichotomy da db) as [H'' | [H'' | H'']]; [lia | | lia].
  right. left. subst. reflexivity.
Qed.

Lemma toordinal_date_lt (a b : date) :
  valid_date a = true -> valid_date b = true ->
  (date_lt a b <-> toordinal a < toordinal b)
  /\ (a = b <-> toordinal a = toordinal b).
Proof.
  intros Ha Hb.
  pose proof (toordinal_lt a b Ha Hb). pose proof (toordinal_lt b a Hb Ha).
  destruct (date_trichotomy a b) as [Hlt | [Heq | Hgt]]; repeat split; intros;
    subst; try tauto; try lia.
  all: try (specialize (H Hlt)); try (specialize (H0 Hgt)); try lia.
Qed.

Lemma toordinal_max (dt : date) :
  valid_date dt = true ->
  toordinal dt <= MAXORDINAL
  /\ (toordinal dt = MAXORDINAL <-> dt = mkdate 9999 12 31).
Proof.
  intros Hv.
  assert (Hmax : valid_date (mkdate 9999 12 31) = true) by reflexivity.
  destruct (toordinal_date_lt dt (mkdate 9999 12 31) Hv Hmax) as [Hlt Heq].
  change (toordinal (mkdate 9999 12 31)) with MAXORDINAL in *.
  split; [ | symmetry; exact Heq ].
  destruct (date_trichotomy dt (mkdate 9999 12 31)) as [H | [H | H]].
  - apply Hlt in H. lia.
  - apply Heq in H. lia.
  - exfalso. apply valid_date_bounds in Hv. unfold date_lt in H. cbn in H.
    pose proof (days_in_month_bounds (year dt) (month dt)). lia.
Qed.

(** ** Counting *)

Lemma days_from_length (k : nat) (start : Z) : List.length (days_from start k) = k.
Proof.
  revert start. induction k as [ | k IH]; intros start; cbn; [reflexivity | ].
  rewrite IH. reflexivity.
Qed.

Lemma days_from_app (a b : nat) (start : Z) :
  days_from start (a + b) = (days_from start a ++ days_from (start + Z.of_nat a) b)%list.
Proof.
  revert start. induction a as [ | a IH]; intros start.
  - cbn. replace (start + 0) with start by lia. reflexivity.
  - cbn [Nat.add days_from app]. rewrite IH. do 3 f_equal. lia.
Qed.

Lemma days_between_split (start mid end_ : Z) :
  start <= mid + 1 -> mid <= end_ ->
  days_between start end_
  = (days_between start mid ++ days_between (mid + 1) end_)%list.
Proof.
  intros H1 H2. unfold days_between.
  replace (Z.to_nat (end_ + 1 - start))
    with (Z.to_nat (mid + 1 - start) + Z.to_nat (end_ + 1 - (mid + 1)))%nat by lia.
  rewrite days_from_app. do 2 f_equal. lia.
Qed.

Lemma spec_trading_days_split (holidays : list Z) (start mid end_ : Z) :
  start <= mid + 1 -> mid <= end_ ->
  spec_trading_days holidays start end_
  = spec_trading_days holidays start mid
    + spec_trading_days holidays (mid + 1) end_.
Proof.
  intros H1 H2. unfold spec_trading_days.
  rewrite (days_between_split start mid end_ H1 H2), filter_app, length_app.
  lia.
Qed.

Lemma spec_trading_days_bounds (holidays : list Z) (start end_ : Z) :
  0 <= spec_trading_days holidays start end_ <= Z.max 0 (end_ + 1 - start).
Proof.
  unfold spec_trading_days. split; [lia | ].
  pose proof (filter_length_le
                (fun ord => monday_to_friday ord && negb (mem ord holidays))
                (days_between start end_)) as Hle.
  unfold days_between in *. rewrite days_from_length in Hle. lia.
Qed.

Lemma spec_trading_days_mono (holidays : list Z) (s0 s e e0 : Z) :
  s0 <= s -> e <= e0 ->
  spec_trading_days holidays s e <= spec_trading_days holidays s0 e0.
Proof.
  intros Hs He.
  destruct (Z_lt_le_dec e s) as [Hlt | Hle].
  - rewrite spec_trading_days_empty by exact Hlt.
    apply spec_trading_days_bounds.
  - rewrite (spec_trading_days_split holidays s0 (s - 1) e0) by lia.
    replace (s - 1 + 1) with s by lia.
    rewrite (spec_trading_days_split holidays s e e0) by lia.
    pose proof (spec_trading_days_bounds holidays s0 (s - 1)).
    pose proof (spec_trading_days_bounds holidays (e + 1) e0).
    lia.
Qed.

(** ** Count_trading_days_between extras *)

(** Comparing two dates field by field, as [date] objects compare, is
    comparing their ordinals; a valid date has an ordinal between 1 and
    [MAXORDINAL]. *)
Lemma date_order_is_ordinal_order (a b : date) :
  valid_date a = true -> valid_date b = true ->
  (date_lt a b <-> toordinal a < toordinal b)
  /\ (a = b <-> toordinal a = toordinal b)
  /\ 1 <= toordinal a <= MAXORDINAL.
Proof.
  intros Ha Hb. destruct (toordinal_date_lt a b Ha Hb) as [Hlt Heq].
  split; [exact Hlt | ]. split; [exact Heq | ].
  split; [apply toordinal_pos; exact Ha | apply toordinal_max; exact Ha].
Qed.

(** The count for two dates that parse, the end before [date.max]. *)
Lemma count_parsed (start_str end_str : string) (start_date end_date : date) :
  strptime start_str = Some start_date ->
  strptime end_str = Some end_date ->
  toordinal end_date < MAXORDINAL ->
  count_trading_days_between start_str end_str
  = Ok (spec_trading_days (holiday_dates HOLIDAYS_2025)
                          (toordinal start_date) (toordinal end_date)).
Proof.
  intros Hs He Hmax.
  destruct (count_trading_days_between_cases start_str end_str) as [_ Hsome].
  apply (Hsome _ _ Hs He). exact Hmax.
Qed.

(** Every outcome of the count: 0 when a string does not parse, the
    exception when the end is the last day of the calendar, the number of
    trading days of the range otherwise. *)
Lemma count_outcome (start_str end_str : string) :
  match strptime start_str, strptime end_str with
  | Some start_date, Some end_date =>
      (end_date = mkdate 9999 12 31
       /\ count_trading_days_between start_str end_str = Raise OverflowError)
      \/ (end_date <> mkdate 9999 12 31
          /\ count_trading_days_between start_str end_str
             = Ok (spec_trading_days (holiday_dates HOLIDAYS_2025)
                                     (toordinal start_date) (toordinal end_date)))
  | _, _ => count_trading_days_between start_str end_str = Ok 0
  end.
Proof.
  destruct (count_trading_days_between_cases start_str end_str) as [Hnone Hsome].
  destruct (strptime start_str) as [start_date | ] eqn:Hs;
    [ | apply Hnone; left; reflexivity].
  destruct (strptime end_str) as [end_date | ] eqn:He;
    [ | apply Hnone; right; reflexivity].
  pose proof (strptime_valid _ _ Hs) as Hvs.
  pose proof (strptime_valid _ _ He) as Hve.
  destruct (toordinal_max _ Hvs) as [Hsmax _].
  destruct (toordinal_max _ Hve) as [Hemax Hlast].
  pose proof (toordinal_pos _ Hvs) as Hspos.
  destruct (Hsome start_date end_date eq_refl eq_refl) as [_ Hcount].
  destruct (Z.eq_dec (toordinal end_date) MAXORDINAL) as [Heq | Hne].
  - left. split; [apply Hlast; exact Heq | ].
    rewrite (count_trading_days_between_parsed _ _ _ _ Hs He), Heq.
    destruct (Z.ltb_spec MAXORDINAL (toordinal start_date)); [lia | ].
    apply (count_loop_raises_at_max _ _ _ _ eq_refl). lia.
  - right. split.
    + intros Hd. apply Hne. apply Hlast. exact Hd.
    + apply Hcount. lia.
Qed.

(** X1: [count_trading_days_between] raises ([OverflowError]) exactly when
    both strings parse and the end date is 31-Dec-9999; for every other pair
    of strings it returns a count. *)
Theorem count_trading_days_between_raises_iff (start_str end_str : string) :
  (count_trading_days_between start_str end_str = Raise OverflowError
   <-> strptime start_str <> None
       /\ strptime end_str = Some (mkdate 9999 12 31))
  /\ (strptime start_str = None \/ strptime end_str <> Some (mkdate 9999 12 31)
      -> exists days : Z, count_trading_days_between start_str end_str = Ok days).
Proof.
  pose proof (count_outcome start_str end_str) as Hout.
  destruct (strptime start_str) as [start_date | ];
    [destruct (strptime end_str) as [end_date | ] | ].
  - destruct Hout as [[-> Hr] | [Hne Hr]]; rewrite Hr; split.
    + split; [intros _; split; [discriminate | reflexivity] | reflexivity].
    + intros [Hc | Hc]; [discriminate | exfalso; apply Hc; reflexivity].
    + split; [discriminate | ].
      intros [_ Hc]. injection Hc as ->. exfalso. apply Hne. reflexivity.
    + intros _. eexists. reflexivity.
  - rewrite Hout. split.
    + split; [discriminate | intros [_ Hc]; discriminate].
    + intros _. eexists. reflexivity.
  - rewrite Hout. split.
    + split; [discriminate | intros [Hc _]; exfalso; apply Hc; reflexivity].
    + intros _. eexists. reflexivity.
Qed.

Lemma count_trading_days_between_raises_iff_witness :
  exists days : Z,
    count_trading_days_between "30-Dec-9999" "30-Dec-9999" = Ok days.
Proof.
  apply (proj2 (count_trading_days_between_raises_iff "30-Dec-9999" "30-Dec-9999")).
  right. discriminate.
Defined.

Lemma Ok_inj {A : Type} (a b : A) : Ok a = Ok b -> a = b.
Proof. intros H. injection H as H. exact H. Qed.

(** X2: a count that [count_trading_days_between] returns is never negative
    and never exceeds the number of calendar days of the inclusive range
    (0 when the start is after the end). *)
Theorem count_trading_days_between_bounds
    (start_str end_str : string) (days : Z) :
  count_trading_days_between start_str end_str = Ok days ->
  0 <= days
  /\ (forall start_date end_date,
        strptime start_str = Some start_date ->
        strptime end_str = Some end_date ->
        days <= Z.max 0 (toordinal end_date + 1 - toordinal start_date)).
Proof.
  intros Hrun. pose proof (count_outcome start_str end_str) as Hout.
  destruct (strptime start_str) as [start_date | ];
    [destruct (strptime end_str) as [end_date | ] | ].
  - destruct Hout as [[_ Hr] | [_ Hr]]; rewrite Hr in Hrun; [discriminate | ].
    apply Ok_inj in Hrun. subst days.
    pose proof (spec_trading_days_bounds (holiday_dates HOLIDAYS_2025)
                  (toordinal start_date) (toordinal end_date)) as Hb.
    split; [lia | ]. intros sd ed Hsd Hed.
    injection Hsd as <-. injection Hed as <-. lia.
  - rewrite Hout in Hrun. apply Ok_inj in Hrun. subst days.
    split; [lia | ]. discriminate.
  - rewrite Hout in Hrun. apply Ok_inj in Hrun. subst days.
    split; [lia | ]. discriminate.
Qed.

Lemma count_trading_days_between_bounds_witness :
  0 <= 3
  /\ 3 <= Z.max 0 (toordinal (mkdate 2025 1 3) + 1 - toordinal (mkdate 2025 1 1)).
Proof.
  assert (Hrun : count_trading_days_between "01-Jan-2025" "03-Jan-2025" = Ok 3)
    by (vm_compute; reflexivity).
  destruct (count_trading_days_between_bounds _ _ _ Hrun) as [Hpos Hle].
  split; [exact Hpos | ].
  exact (Hle (mkdate 2025 1 1) (mkdate 2025 1 3) eq_refl eq_refl).
Defined.

(** X3: the counts of two adjacent ranges add up: for dates [a <= b] and
    [c] not before the day after [b] (and before 31-Dec-9999), the count
    from [a] to [c] is the count from [a] to [b] plus the count from the day
    after [b] to [c]. *)
Theorem count_trading_days_between_additive
    (a_str b_str b1_str c_str : string) (a b b1 c : date) :
  strptime a_str = Some a -> strptime b_str = Some b ->
  strptime b1_str = Some b1 -> strptime c_str = Some c ->
  toordinal a <= toordinal b -> toordinal b1 = toordinal b + 1 ->
  toordinal b1 <= toordinal c -> c <> mkdate 9999 12 31 ->
  exists n1 n2 : Z,
    count_trading_days_between a_str b_str = Ok n1
    /\ count_trading_days_between b1_str c_str = Ok n2
    /\ count_trading_days_between a_str c_str = Ok (n1 + n2).
Proof.
  intros Ha Hb Hb1 Hc Hab Hnext Hbc Hmax.
  assert (Hcmax : toordinal c < MAXORDINAL).
  { destruct (toordinal_max _ (strptime_valid _ _ Hc)) as [Hle Hlast].
    destruct (Z.eq_dec (toordinal c) MAXORDINAL) as [Heq | Hne]; [ | lia].
    exfalso. apply Hmax. apply Hlast. exact Heq. }
  rewrite (count_parsed _ _ _ _ Ha Hb) by lia.
  rewrite (count_parsed _ _ _ _ Hb1 Hc Hcmax).
  rewrite (count_parsed _ _ _ _ Ha Hc Hcmax).
  eexists. eexists. split; [reflexivity | ]. split; [reflexivity | ].
  rewrite Hnext. f_equal. apply spec_trading_days_split; lia.
Qed.

Lemma count_trading_days_between_additive_witness :
  exists n1 n2 : Z,
    count_trading_days_between "01-Jan-2025" "15-Jan-2025" = Ok n1
    /\ count_trading_days_between "16-Jan-2025" "31-Jan-2025" = Ok n2
    /\ count_trading_days_between "01-Jan-2025" "31-Jan-2025" = Ok (n1 + n2).
Proof.
  apply (count_trading_days_between_additive
           "01-Jan-2025" "15-Jan-2025" "16-Jan-2025" "31-Jan-2025"
           (mkdate 2025 1 1) (mkdate 2025 1 15)
           (mkdate 2025 1 16) (mkdate 2025 1 31));
    try reflexivity; try discriminate.
Defined.

(** ** Configuration *)

(** X4: the holiday table and the trading-day total agree: the fourteen
    strings of [HOLIDAYS_2025] all parse, to fourteen different days of 2025
    that are all Monday to Friday, and the count over the whole of 2025 is
    [TOTAL_TRADING_DAYS_2025] (247). *)
Theorem holidays_2025_consistent :
  List.length (holiday_dates HOLIDAYS_2025) = List.length HOLIDAYS_2025
  /\ NoDup (holiday_dates HOLIDAYS_2025)
  /\ (forall ord, In ord (holiday_dates HOLIDAYS_2025) ->
        FIRST_DAY_2025 <= ord <= LAST_DAY_2025 /\ weekday ord < 5)
  /\ count_trading_days_between "01-Jan-2025" "31-Dec-2025"
     = Ok TOTAL_TRADING_DAYS_2025.
Proof.
  split; [reflexivity | ]. split.
  - vm_compute. repeat (constructor; [cbn; lia | ]). constructor.
  - split; [ | vm_compute; reflexivity].
    intros ord Hin. vm_compute in Hin.
    repeat (destruct Hin as [<- | Hin]; [vm_compute; repeat split; discriminate | ]).
    destruct Hin.
Qed.

(** ** Strftime / strptime round trip *)

Lemma all_between_spec (lo hi : Z) (p : Z -> bool) :
  all_between lo hi p = true ->
  forall y, lo <= y <= hi -> p y = true.
Proof.
  unfold all_between. rewrite forallb_forall. intros H y Hy.
  apply H. apply in_days_between. exact Hy.
Qed.

Lemma parse_year_str_of_Z (y : Z) :
  1000 <= y <= 9999 -> parse_year (str_of_Z y) = Some y.
Proof.
  intros Hy.
  assert (Hall : all_between 1000 9999 year_reads_back = true)
    by (vm_compute; reflexivity).
  pose proof (all_between_spec _ _ _ Hall y ltac:(lia)) as Hp.
  unfold year_reads_back in Hp.
  destruct (parse_year (str_of_Z y)) as [y' | ]; [ | discriminate].
  apply Z.eqb_eq in Hp. subst y'. reflexivity.
Qed.

Lemma parse_year_short (y : Z) :
  1 <= y <= 999 -> parse_year (str_of_Z y) = None.
Proof.
  intros Hy.
  assert (Hall : all_between 1 999 year_rejected = true)
    by (vm_compute; reflexivity).
  pose proof (all_between_spec _ _ _ Hall y ltac:(lia)) as Hp.
  unfold year_rejected in Hp.
  destruct (parse_year (str_of_Z y)); [discriminate | reflexivity].
Qed.

Lemma parse_day_two_digits (d : Z) (rest : string) :
  1 <= d <= 31 ->
  parse_day (two_digits d ++ "-" ++ rest) = Some (d, rest).
Proof.
  intros Hd.
  assert (E : d = Z.of_nat (Datatypes.S (Z.to_nat (d - 1)))) by lia.
  assert (Hk : (Z.to_nat (d - 1) < 31)%nat) by lia.
  rewrite E at 1 2. clear E.
  replace d with (Z.of_nat (Datatypes.S (Z.to_nat (d - 1)))) at 2 by lia.
  generalize dependent (Z.to_nat (d - 1)). intros k Hk.
  do 31 (destruct k as [ | k]; [reflexivity | ]).
  lia.
Qed.

Lemma parse_month_abbr (m : Z) (rest : string) :
  1 <= m <= 12 ->
  parse_month (nth (Z.to_nat m) month_abbr "" ++ "-" ++ rest) = Some (m, rest).
Proof.
  intros Hm. month_cases m; reflexivity.
Qed.

Lemma strftime_parts (dt : date) :
  strftime dt
  = two_digits (day dt) ++ "-"
    ++ (nth (Z.to_nat (month dt)) month_abbr "" ++ "-" ++ str_of_Z (year dt)).
Proof. reflexivity. Qed.

(** Today's string parses back to today, for a year of four digits. *)
Lemma strftime_parses_back (dt : date) :
  valid_date dt = true -> 1000 <= year dt -> strptime (strftime dt) = Some dt.
Proof.
  intros Hv Hyear. pose proof (valid_date_bounds _ Hv) as (Hy & Hm & Hd).
  pose proof (days_in_month_bounds (year dt) (month dt)) as Hd31.
  unfold strptime. rewrite strftime_parts.
  rewrite parse_day_two_digits by lia.
  rewrite parse_month_abbr by lia.
  rewrite parse_year_str_of_Z by lia.
  destruct dt as [y m d]. cbn [year month day] in *. rewrite Hv. reflexivity.
Qed.

(** A year of fewer than four digits is rendered without padding and is not
    read back. *)
Lemma strftime_short_year (dt : date) :
  valid_date dt = true -> year dt < 1000 -> strptime (strftime dt) = None.
Proof.
  intros Hv Hyear. pose proof (valid_date_bounds _ Hv) as (Hy & Hm & Hd).
  pose proof (days_in_month_bounds (year dt) (month dt)) as Hd31.
  unfold strptime. rewrite strftime_parts.
  rewrite parse_day_two_digits by lia.
  rewrite parse_month_abbr by lia.
  rewrite parse_year_short by lia. reflexivity.
Qed.

(** X5: the string [calculate_time_to_expiry] renders for today parses back
    to today when today's year has four digits (1000 to 9999); for an
    earlier year the rendering has no padding and does not parse. *)
Theorem strptime_strftime (dt : date) :
  valid_date dt = true ->
  (1000 <= year dt -> strptime (strftime dt) = Some dt)
  /\ (year dt < 1000 -> strptime (strftime dt) = None).
Proof.
  intros Hv. split.
  - apply strftime_parses_back. exact Hv.
  - apply strftime_short_year. exact Hv.
Qed.

Lemma strptime_strftime_witness :
  strptime (strftime (mkdate 2025 11 3)) = Some (mkdate 2025 11 3)
  /\ strptime (strftime (mkdate 999 1 5)) = None.
Proof.
  split.
  - apply (proj1 (strptime_strftime (mkdate 2025 11 3) eq_refl)). cbn. lia.
  - apply (proj2 (strptime_strftime (mkdate 999 1 5) eq_refl)). cbn. lia.
Defined.

(** ** Calculate_time_to_expiry extras *)

Lemma count_to_2025_expiry (today : date) (expiry_str : string) (expiry_date : date) :
  strptime expiry_str = Some expiry_date -> year expiry_date = 2025 ->
  count_trading_days_between (strftime today) expiry_str
  = Ok (trading_days_left today expiry_date).
Proof.
  intros He Hy. unfold trading_days_left.
  pose proof (toordinal_2025 _ (strptime_valid _ _ He) Hy) as Hmax.
  destruct (strptime (strftime today)) as [start_date | ] eqn:Hs.
  - apply (count_parsed _ _ _ _ Hs He Hmax).
  - destruct (count_trading_days_between_cases (strftime today) expiry_str)
      as [Hnone _].
    apply Hnone. left. exact Hs.
Qed.

Lemma trading_days_left_nonneg (today expiry_date : date) :
  0 <= trading_days_left today expiry_date.
Proof.
  unfold trading_days_left.
  destruct (strptime (strftime today)); [apply spec_trading_days_bounds | lia].
Qed.

(** The result for an expiry of 2025. *)
Lemma calculate_time_to_expiry_2025
    (total_trading_days : Z) (today : date) (expiry_str : string)
    (expiry_date : date) :
  strptime expiry_str = Some expiry_date -> year expiry_date = 2025 ->
  calculate_time_to_expiry total_trading_days today expiry_str
  = let days_left := trading_days_left today expiry_date in
    let frac_str := str_of_Z days_left ++ "/" ++ str_of_Z total_trading_days in
    if total_trading_days <=? 0 then Ok (0%R, frac_str, days_left)
    else Ok ((IZR days_left / IZR total_trading_days)%R, frac_str, days_left).
Proof.
  intros He Hy. unfold calculate_time_to_expiry.
  rewrite He, (proj2 (Z.eqb_eq _ _) Hy), (count_to_2025_expiry _ _ _ He Hy).
  cbn [negb bind]. destruct (total_trading_days <=? 0); reflexivity.
Qed.

Lemma quotient_nonneg (a b : Z) : 0 <= a -> 0 < b -> (0 <= IZR a / IZR b)%R.
Proof.
  intros Ha Hb. apply Rmult_le_pos.
  - apply IZR_le. exact Ha.
  - left. apply Rinv_0_lt_compat. apply IZR_lt. exact Hb.
Qed.

Lemma quotient_le_1 (a b : Z) : a <= b -> 0 < b -> (IZR a / IZR b <= 1)%R.
Proof.
  intros Ha Hb. apply (Rmult_le_reg_r (IZR b)); [apply IZR_lt; exact Hb | ].
  unfold Rdiv. rewrite Rmult_assoc, Rinv_l, Rmult_1_r, Rmult_1_l.
  - apply IZR_le. exact Ha.
  - apply not_0_IZR. lia.
Qed.

(** The shape of every result of [calculate_time_to_expiry]. *)
Lemma time_to_expiry_shape
    (total_trading_days : Z) (today : date) (expiry_str : string) :
  exists (T : R) (frac_str : string) (days_left : Z),
    calculate_time_to_expiry total_trading_days today expiry_str
    = Ok (T, frac_str, days_left)
    /\ 0 <= days_left
    /\ (0 <= T)%R
    /\ (days_left = 0 -> T = 0%R).
Proof.
  destruct (strptime expiry_str) as [expiry_date | ] eqn:He.
  - destruct (Z.eq_dec (year expiry_date) 2025) as [Hy | Hy].
    + rewrite (calculate_time_to_expiry_2025 _ _ _ _ He Hy). cbv zeta.
      pose proof (trading_days_left_nonneg today expiry_date) as Hpos.
      destruct (Z.leb_spec total_trading_days 0) as [Htot | Htot].
      * do 3 eexists. split; [reflexivity | ].
        split; [exact Hpos | ]. split; [lra | reflexivity].
      * do 3 eexists. split; [reflexivity | ].
        split; [exact Hpos | ]. split; [apply quotient_nonneg; assumption | ].
        intros ->. unfold Rdiv. apply Rmult_0_l.
    + unfold calculate_time_to_expiry.
      rewrite He, (proj2 (Z.eqb_neq _ _) Hy). cbn [negb].
      do 3 eexists. split; [reflexivity | ].
      split; [lia | ]. split; [lra | reflexivity].
  - unfold calculate_time_to_expiry. rewrite He.
    do 3 eexists. split; [reflexivity | ].
    split; [lia | ]. split; [lra | reflexivity].
Qed.

(** X6: [calculate_time_to_expiry] always returns a triple, whatever the
    expiry string, the clock and the total: the days left are never
    negative, [T] is never negative, and [T] is 0 whenever no trading day is
    left. *)
Theorem calculate_time_to_expiry_nonnegative
    (total_trading_days : Z) (today : date) (expiry_str : string) :
  exists (T : R) (frac_str : string) (days_left : Z),
    calculate_time_to_expiry total_trading_days today expiry_str
    = Ok (T, frac_str, days_left)
    /\ 0 <= days_left
    /\ (0 <= T)%R
    /\ (days_left = 0 -> T = 0%R).
Proof. apply time_to_expiry_shape. Qed.

(** X7: for an expiry of 2025 that lies before today, no trading day is
    left: the result is [(0, "0/total", 0)]. *)
Theorem calculate_time_to_expiry_expired
    (total_trading_days : Z) (today : date) (expiry_str : string)
    (expiry_date : date) :
  valid_date today = true -> 1000 <= year today ->
  strptime expiry_str = Some expiry_date -> year expiry_date = 2025 ->
  date_lt expiry_date today ->
  exists T : R,
    calculate_time_to_expiry total_trading_days today expiry_str
    = Ok (T, "0/" ++ str_of_Z total_trading_days, 0)
    /\ T = 0%R.
Proof.
  intros Hv Hy1000 He Hy Hlt.
  assert (Hdays : trading_days_left today expiry_date = 0).
  { unfold trading_days_left. rewrite (strftime_parses_back _ Hv Hy1000).
    apply spec_trading_days_empty.
    apply (toordinal_lt _ _ (strptime_valid _ _ He) Hv Hlt). }
  rewrite (calculate_time_to_expiry_2025 _ _ _ _ He Hy). cbv zeta.
  rewrite Hdays. change (str_of_Z 0) with "0".
  destruct (total_trading_days <=? 0).
  - eexists. split; [reflexivity | reflexivity].
  - eexists. split; [reflexivity | ]. unfold Rdiv. apply Rmult_0_l.
Qed.

Lemma calculate_time_to_expiry_expired_witness :
  exists T : R,
    calculate_time_to_expiry 247 (mkdate 2025 11 3) "30-Oct-2025"
    = Ok (T, "0/" ++ str_of_Z 247, 0)
    /\ T = 0%R.
Proof.
  apply (calculate_time_to_expiry_expired
           247 (mkdate 2025 11 3) "30-Oct-2025" (mkdate 2025 10 30));
    try reflexivity.
  - cbn. lia.
  - right. split; [reflexivity | left; cbn; lia].
Defined.

(** Every day of 2025 lies between its first and its last day. *)
Lemma toordinal_in_2025 (dt : date) :
  valid_date dt = true -> year dt = 2025 ->
  FIRST_DAY_2025 <= toordinal dt <= LAST_DAY_2025.
Proof.
  intros Hv Hy. pose proof (valid_date_bounds _ Hv) as (_ & Hm & Hd).
  unfold toordinal. rewrite Hy in *.
  pose proof (days_before_month_bounds 2025 (month dt) Hm) as Hb.
  pose proof (days_before_month_end 2025 (month dt) Hm) as He.
  change (is_leap 2025) with false in He. cbv iota in He.
  change (days_before_year 2025) with 739251.
  change FIRST_DAY_2025 with 739252. change LAST_DAY_2025 with 739616.
  lia.
Qed.

Lemma trading_days_of_2025 :
  spec_trading_days (holiday_dates HOLIDAYS_2025) FIRST_DAY_2025 LAST_DAY_2025
  = TOTAL_TRADING_DAYS_2025.
Proof. vm_compute. reflexivity. Qed.

(** X8: when today and the expiry are both in 2025, the trading days left
    are at most [TOTAL_TRADING_DAYS_2025], so the time to expiry lies
    between 0 and 1. *)
Theorem time_to_expiry_at_most_one_year
    (today : date) (expiry_str : string) (expiry_date : date) :
  valid_date today = true -> year today = 2025 ->
  strptime expiry_str = Some expiry_date -> year expiry_date = 2025 ->
  exists (T : R) (frac_str : string) (days_left : Z),
    calculate_time_to_expiry TOTAL_TRADING_DAYS_2025 today expiry_str
    = Ok (T, frac_str, days_left)
    /\ 0 <= days_left <= TOTAL_TRADING_DAYS_2025
    /\ T = (IZR days_left / IZR TOTAL_TRADING_DAYS_2025)%R
    /\ (0 <= T <= 1)%R.
Proof.
  intros Hv Hyt He Hy.
  rewrite (calculate_time_to_expiry_2025 _ _ _ _ He Hy). cbv zeta.
  change (TOTAL_TRADING_DAYS_2025 <=? 0) with false. cbv iota.
  assert (Hdays : 0 <= trading_days_left today expiry_date
                  <= TOTAL_TRADING_DAYS_2025).
  { split; [apply trading_days_left_nonneg | ].
    unfold trading_days_left.
    rewrite (strftime_parses_back _ Hv) by lia.
    rewrite <- trading_days_of_2025.
    apply spec_trading_days_mono.
    - apply toordinal_in_2025; assumption.
    - apply toordinal_in_2025; [exact (strptime_valid _ _ He) | exact Hy]. }
  do 3 eexists. split; [reflexivity | ]. split; [exact Hdays | ].
  split; [reflexivity | ]. split.
  - apply quotient_nonneg; [lia | reflexivity].
  - apply quotient_le_1; [lia | reflexivity].
Qed.

Lemma time_to_expiry_at_most_one_year_witness :
  exists (T : R) (frac_str : string) (days_left : Z),
    calculate_time_to_expiry TOTAL_TRADING_DAYS_2025
                             (mkdate 2025 1 1) "27-Nov-2025"
    = Ok (T, frac_str, days_left)
    /\ 0 <= days_left <= TOTAL_TRADING_DAYS_2025
    /\ T = (IZR days_left / IZR TOTAL_TRADING_DAYS_2025)%R
    /\ (0 <= T <= 1)%R.
Proof.
  apply (time_to_expiry_at_most_one_year
           (mkdate 2025 1 1) "27-Nov-2025" (mkdate 2025 11 27));
    reflexivity.
Defined.

(** X9: seen from the same day, a later expiry of 2025 never has fewer
    trading days left, nor a smaller time to expiry, than an earlier one. *)
Theorem trading_days_left_monotone
    (total_trading_days : Z) (today : date) (expiry1_str expiry2_str : string)
    (expiry1 expiry2 : date) :
  strptime expiry1_str = Some expiry1 -> year expiry1 = 2025 ->
  strptime expiry2_str = Some expiry2 -> year expiry2 = 2025 ->
  toordinal expiry1 <= toordinal expiry2 ->
  exists (T1 T2 : R) (frac1 frac2 : string) (days1 days2 : Z),
    calculate_time_to_expiry total_trading_days today expiry1_str
    = Ok (T1, frac1, days1)
    /\ calculate_time_to_expiry total_trading_days today expiry2_str
       = Ok (T2, frac2, days2)
    /\ days1 <= days2
    /\ (T1 <= T2)%R.
Proof.
  intros He1 Hy1 He2 Hy2 Hle.
  rewrite (calculate_time_to_expiry_2025 _ _ _ _ He1 Hy1).
  rewrite (calculate_time_to_expiry_2025 _ _ _ _ He2 Hy2). cbv zeta.
  assert (Hdays : trading_days_left today expiry1
                  <= trading_days_left today expiry2).
  { unfold trading_days_left.
    destruct (strptime (strftime today)) as [start_date | ]; [ | lia].
    apply spec_trading_days_mono; lia. }
  destruct (Z.leb_spec total_trading_days 0) as [Htot | Htot].
  - do 6 eexists. split; [reflexivity | ]. split; [reflexivity | ].
    split; [exact Hdays | lra].
  - do 6 eexists. split; [reflexivity | ]. split; [reflexivity | ].
    split; [exact Hdays | ].
    unfold Rdiv. apply Rmult_le_compat_r.
    + left. apply Rinv_0_lt_compat. apply IZR_lt. exact Htot.
    + apply IZR_le. exact Hdays.
Qed.

Lemma trading_days_left_monotone_witness :
  exists (T1 T2 : R) (frac1 frac2 : string) (days1 days2 : Z),
    calculate_time_to_expiry 247 (mkdate 2025 1 1) "30-Oct-2025"
    = Ok (T1, frac1, days1)
    /\ calculate_time_to_expiry 247 (mkdate 2025 1 1) "27-Nov-2025"
       = Ok (T2, frac2, days2)
    /\ days1 <= days2
    /\ (T1 <= T2)%R.
Proof.
  apply (trading_days_left_monotone
           247 (mkdate 2025 1 1) "30-Oct-2025" "27-Nov-2025"
           (mkdate 2025 10 30) (mkdate 2025 11 27));
    try reflexivity.
  vm_compute. discriminate.
Defined.

(** ** Pricer extras *)

Open Scope R_scope.

Lemma Rmax_0_nonneg (x : R) : 0 <= Rmax 0 x.
Proof. apply Rmax_l. Qed.

Lemma spec_payoff_nonneg (option_type : string) (price K : R) :
  0 <= spec_payoff option_type price K.
Proof. unfold spec_payoff. destruct (String.eqb option_type "CE"); apply Rmax_l. Qed.

(** X13: the three payoffs of a step result are never negative, for every
    input and option side, in the degenerate branch as well. *)
Theorem payoffs_never_negative
    (S K r sigma T q : R) (n : Z) (option_type : string) :
  let res := trinomial_single_step S K r sigma T q n option_type in
  0 <= Step.payoff_up res /\ 0 <= Step.payoff_mid res
  /\ 0 <= Step.payoff_down res.
Proof.
  cbv zeta. destruct (Rle_dec (time_increment T n) 0) as [Hdeg | Hpos].
  - rewrite (step_degenerate _ _ _ _ _ _ _ _ Hdeg). cbn. repeat split; lra.
  - assert (Hdt : 0 < time_increment T n) by lra.
    destruct (step_valuation S K r sigma T q n option_type Hdt)
      as (-> & -> & -> & _).
    repeat split; apply spec_payoff_nonneg.
Qed.

Lemma Rmax_parity (x : R) : Rmax 0 x - Rmax 0 (- x) = x.
Proof.
  unfold Rmax. destruct (Rle_dec 0 x), (Rle_dec 0 (- x)); lra.
Qed.

(** The probabilities, factors and prices do not depend on the option
    side. *)
Lemma step_side_independent
    (S K r sigma T q : R) (n : Z) (ot1 ot2 : string) :
  let a := trinomial_single_step S K r sigma T q n ot1 in
  let b := trinomial_single_step S K r sigma T q n ot2 in
  Step.p_u a = Step.p_u b /\ Step.p_m a = Step.p_m b /\ Step.p_d a = Step.p_d b
  /\ Step.discount_factor a = Step.discount_factor b
  /\ Step.price_up a = Step.price_up b /\ Step.price_mid a = Step.price_mid b
  /\ Step.price_down a = Step.price_down b.
Proof.
  cbv zeta. unfold trinomial_single_step.
  destruct (Rle_dec (time_increment T n) 0); [cbn; repeat split; reflexivity | ].
  split_on_tolerance;
    destruct (String.eqb ot1 "CE"), (String.eqb ot2 "CE");
    cbn; repeat split; reflexivity.
Qed.

(** X14: put-call parity at the nodes: for the same inputs with [dt > 0],
    call payoff minus put payoff is [price - K] at each of the three nodes,
    and the root values differ by the discounted expected node price minus
    the strike. *)
Theorem put_call_parity_at_nodes
    (S K r sigma T q : R) (n : Z) (put_type : string) :
  0 < time_increment T n -> put_type <> "CE"%string ->
  let call := trinomial_single_step S K r sigma T q n "CE" in
  let put := trinomial_single_step S K r sigma T q n put_type in
  Step.payoff_up call - Step.payoff_up put = Step.price_up call - K
  /\ Step.payoff_mid call - Step.payoff_mid put = Step.price_mid call - K
  /\ Step.payoff_down call - Step.payoff_down put = Step.price_down call - K
  /\ Step.option_value_at_root call - Step.option_value_at_root put
     = Step.discount_factor call
       * (Step.p_u call * Step.price_up call
          + Step.p_m call * Step.price_mid call
          + Step.p_d call * Step.price_down call - K).
Proof.
  intros Hdt Hput call put.
  destruct (step_valuation S K r sigma T q n "CE" Hdt) as (Hcu & Hcm & Hcd & Hcr).
  destruct (step_valuation S K r sigma T q n put_type Hdt) as (Hpu & Hpm & Hpd & Hpr).
  destruct (step_side_independent S K r sigma T q n "CE" put_type)
    as (Epu & Epm & Epd & Edf & Eup & Emid & Edown).
  pose proof (step_probabilities_sum S K r sigma T q n "CE" Hdt) as Hsum.
  fold call in Hcu, Hcm, Hcd, Hcr, Epu, Epm, Epd, Edf, Eup, Emid, Edown, Hsum.
  fold put in Hpu, Hpm, Hpd, Hpr, Epu, Epm, Epd, Edf, Eup, Emid, Edown.
  cbv zeta in Hsum. fold call in Hsum.
  assert (Hce : String.eqb "CE" "CE" = true) by reflexivity.
  assert (Hpe : String.eqb put_type "CE" = false)
    by (apply String.eqb_neq; exact Hput).
  unfold spec_payoff in Hcu, Hcm, Hcd, Hpu, Hpm, Hpd.
  rewrite Hce in Hcu, Hcm, Hcd. rewrite Hpe in Hpu, Hpm, Hpd.
  assert (Pu : Step.payoff_up call - Step.payoff_up put = Step.price_up call - K).
  { rewrite Hcu, Hpu, <- Eup.
    replace (K - Step.price_up call) with (- (Step.price_up call - K)) by lra.
    apply Rmax_parity. }
  assert (Pm : Step.payoff_mid call - Step.payoff_mid put = Step.price_mid call - K).
  { rewrite Hcm, Hpm, <- Emid.
    replace (K - Step.price_mid call) with (- (Step.price_mid call - K)) by lra.
    apply Rmax_parity. }
  assert (Pd : Step.payoff_down call - Step.payoff_down put
               = Step.price_down call - K).
  { rewrite Hcd, Hpd, <- Edown.
    replace (K - Step.price_down call) with (- (Step.price_down call - K)) by lra.
    apply Rmax_parity. }
  split; [exact Pu | ]. split; [exact Pm | ]. split; [exact Pd | ].
  rewrite Hcr, Hpr, <- Edf, <- Epu, <- Epm, <- Epd.
  replace (Step.p_u call * Step.price_up call + Step.p_m call * Step.price_mid call
           + Step.p_d call * Step.price_down call - K)
    with (Step.p_u call * (Step.price_up call - K)
          + Step.p_m call * (Step.price_mid call - K)
          + Step.p_d call * (Step.price_down call - K))
    by (replace K with ((Step.p_u call + Step.p_m call + Step.p_d call) * K) at 4
          by (rewrite Hsum; lra); lra).
  rewrite <- Pu, <- Pm, <- Pd. lra.
Qed.

Lemma exp_le (x y : R) : x <= y -> exp x <= exp y.
Proof.
  intros [Hlt | ->]; [left; apply exp_increasing; exact Hlt | right; reflexivity].
Qed.

Lemma exp_ge_1 (x : R) : 0 <= x -> 1 <= exp x.
Proof. intros Hx. rewrite <- exp_0. apply exp_le. exact Hx. Qed.

Lemma inv_exp (x : R) : 1 / exp x = exp (- x).
Proof. rewrite exp_Ropp. unfold Rdiv. apply Rmult_1_l. Qed.

(** X15: for [dt > 0] the up and down factors are positive and inverse to
    each other; with [sigma >= 0] they satisfy [d <= 1 <= u], so for a
    non-negative spot the three node prices are ordered
    [price_down <= price_mid <= price_up]. *)
Theorem up_and_down_factors
    (S K r sigma T q : R) (n : Z) (option_type : string) :
  0 < time_increment T n ->
  let res := trinomial_single_step S K r sigma T q n option_type in
  0 < Step.d res /\ 0 < Step.u res /\ Step.u res * Step.d res = 1
  /\ (0 <= sigma -> Step.d res <= 1 <= Step.u res)
  /\ (0 <= sigma -> 0 <= S ->
      Step.price_down res <= Step.price_mid res <= Step.price_up res).
Proof.
  intros Hdt res.
  destruct (step_factors S K r sigma T q n option_type Hdt)
    as (_ & _ & Hu & Hd & Hm & _ & Hpu & Hpm & Hpd).
  fold res in Hu, Hd, Hm, Hpu, Hpm, Hpd.
  set (x := sigma * sqrt (2 * time_increment T n)) in *.
  pose proof (exp_pos x) as Hpos.
  assert (Hdx : Step.d res = exp (- x)) by (rewrite Hd, Hu; apply inv_exp).
  pose proof (exp_pos (- x)) as Hposd.
  assert (Hprod : Step.u res * Step.d res = 1).
  { rewrite Hd, Hu. field. apply exp_neq_0. }
  assert (Hord : 0 <= sigma -> Step.d res <= 1 <= Step.u res).
  { intros Hs.
    assert (Hx : 0 <= x) by (apply Rmult_le_pos; [exact Hs | apply sqrt_pos]).
    rewrite Hdx, Hu. split; [ | apply exp_ge_1; exact Hx].
    rewrite <- exp_0. apply exp_le. lra. }
  split; [rewrite Hdx; exact Hposd | ]. split; [rewrite Hu; exact Hpos | ].
  split; [exact Hprod | ]. split; [exact Hord | ].
  intros Hs HS. destruct (Hord Hs) as [Hd1 Hu1].
  rewrite Hpu, Hpm, Hpd, Hm. split.
  - apply Rmult_le_compat_l; assumption.
  - apply Rmult_le_compat_l; assumption.
Qed.

Lemma up_and_down_factors_witness :
  let res := trinomial_single_step 100 100 MANUAL_RISK_FREE_RATE 1 1 0 2 "CE" in
  Step.u res * Step.d res = 1
  /\ Step.price_down res <= Step.price_mid res <= Step.price_up res.
Proof.
  intros res.
  assert (Hdt : 0 < time_increment 1 2) by (cbn; lra).
  destruct (up_and_down_factors 100 100 MANUAL_RISK_FREE_RATE 1 1 0 2 "CE" Hdt)
    as (_ & _ & Hprod & _ & Hprices).
  split; [exact Hprod | ]. apply Hprices; lra.
Defined.

(** The drift ratio lies in [0, 1] when the carry over one step is within
    one up-move. *)
Lemma frac_in_unit_interval (x y : R) :
  Rabs y <= x -> exp x - exp (- x) > 0 ->
  0 <= (exp y - exp (- x)) / (exp x - exp (- x)) <= 1.
Proof.
  intros Hy Hspread.
  assert (Hyx : - x <= y <= x).
  { unfold Rabs in Hy. destruct (Rcase_abs y); lra. }
  pose proof (exp_le _ _ (proj1 Hyx)) as Hlo.
  pose proof (exp_le _ _ (proj2 Hyx)) as Hhi.
  split.
  - apply Rmult_le_pos; [lra | left; apply Rinv_0_lt_compat; lra].
  - apply (Rmult_le_reg_r (exp x - exp (- x))); [lra | ].
    unfold Rdiv. rewrite Rmult_assoc, Rinv_l by lra. lra.
Qed.

(** Within one up-move of carry the three probabilities are proper. *)
Lemma step_probabilities_in_range
    (S K r sigma T q : R) (n : Z) (option_type : string) :
  0 < time_increment T n ->
  Rabs ((r - q) * time_increment T n)
  <= sigma * sqrt (2 * time_increment T n) ->
  let res := trinomial_single_step S K r sigma T q n option_type in
  0 <= Step.p_u res <= 1 / 2
  /\ 0 <= Step.p_m res <= 1
  /\ 0 <= Step.p_d res <= 1 / 2.
Proof.
  intros Hdt Hcarry res.
  destruct (step_factors S K r sigma T q n option_type Hdt)
    as (_ & Hdtf & Hu & Hd & _).
  destruct (step_probabilities S K r sigma T q n option_type Hdt) as [Hthird Hfrac].
  fold res in Hdtf, Hu, Hd, Hthird, Hfrac.
  destruct (Rlt_dec (Rabs (Step.u res - Step.d res)) 1e-14) as [Htol | Htol].
  - destruct (Hthird Htol) as (-> & -> & ->). lra.
  - destruct (Hfrac Htol) as (Hpu & Hpm & Hpd).
    set (x := sigma * sqrt (2 * time_increment T n)) in *.
    assert (Hx : 0 <= x) by (pose proof (Rabs_pos ((r - q) * time_increment T n)); lra).
    assert (Hdx : Step.d res = exp (- x)) by (rewrite Hd, Hu; apply inv_exp).
    rewrite Hdx, Hu, Hdtf in *.
    assert (Hspread : exp x - exp (- x) > 0).
    { assert (Hge : exp (- x) <= exp x) by (apply exp_le; lra).
      destruct (Rle_lt_or_eq_dec _ _ Hge) as [Hlt | Heq]; [lra | ].
      exfalso. apply Htol. rewrite Heq.
      replace (exp x - exp x) with 0 by lra. rewrite Rabs_R0. lra. }
    pose proof (frac_in_unit_interval x _ Hcarry Hspread) as Hf.
    set (frac := (exp ((r - q) * time_increment T n) - exp (- x))
                 / (exp x - exp (- x))) in *.
    assert (Hsq : 0 <= frac ^ 2 <= 1) by nra.
    rewrite Hpd, Hpm, Hpu. lra.
Qed.

(** X16: when the carry over one step is within one up-move,
    [|(r - q) dt| <= sigma sqrt(2 dt)], the probabilities are proper:
    [p_u] and [p_d] lie in [[0, 1/2]] and [p_m] in [[0, 1]]. *)
Theorem probabilities_valid_within_one_move
    (S K r sigma T q : R) (n : Z) (option_type : string) :
  0 < time_increment T n ->
  Rabs ((r - q) * time_increment T n)
  <= sigma * sqrt (2 * time_increment T n) ->
  let res := trinomial_single_step S K r sigma T q n option_type in
  0 <= Step.p_u res <= 1 / 2
  /\ 0 <= Step.p_m res <= 1
  /\ 0 <= Step.p_d res <= 1 / 2.
Proof. apply step_probabilities_in_range. Qed.

Lemma time_increment_1_2 : time_increment 1 2 = 1 / 2.
Proof. cbn. lra. Qed.

Lemma probabilities_valid_within_one_move_witness :
  let res := trinomial_single_step 100 100 MANUAL_RISK_FREE_RATE 1 1 0 2 "CE" in
  0 <= Step.p_u res <= 1 / 2
  /\ 0 <= Step.p_m res <= 1
  /\ 0 <= Step.p_d res <= 1 / 2.
Proof.
  assert (Hdt : 0 < time_increment 1 2) by (rewrite time_increment_1_2; lra).
  apply (probabilities_valid_within_one_move
           100 100 MANUAL_RISK_FREE_RATE 1 1 0 2 "CE" Hdt).
  rewrite time_increment_1_2, sqrt_2_half. unfold MANUAL_RISK_FREE_RATE.
  rewrite Rabs_right by lra. lra.
Defined.

(** X17: the probabilities are not clamped: when the carry over one step
    exceeds one up-move, [(r - q) dt > sigma sqrt(2 dt)], the formula branch
    gives a negative middle probability, and up and down probabilities above
    one half. *)
Theorem middle_probability_negative_beyond_one_move
    (S K r sigma T q : R) (n : Z) (option_type : string) :
  0 < time_increment T n -> 0 <= sigma ->
  sigma * sqrt (2 * time_increment T n) < (r - q) * time_increment T n ->
  let res := trinomial_single_step S K r sigma T q n option_type in
  Rabs (Step.u res - Step.d res) >= 1e-14 ->
  Step.p_m res < 0 /\ 1 / 2 < Step.p_u res /\ 1 / 2 < Step.p_d res.
Proof.
  intros Hdt Hs Hcarry res Htol.
  destruct (step_factors S K r sigma T q n option_type Hdt)
    as (_ & Hdtf & Hu & Hd & _).
  destruct (step_probabilities S K r sigma T q n option_type Hdt) as [_ Hfrac].
  fold res in Hdtf, Hu, Hd, Hfrac, Htol.
  destruct Hfrac as (Hpu & Hpm & Hpd); [lra | ].
  set (x := sigma * sqrt (2 * time_increment T n)) in *.
  assert (Hx : 0 <= x) by (apply Rmult_le_pos; [exact Hs | apply sqrt_pos]).
  assert (Hdx : Step.d res = exp (- x)) by (rewrite Hd, Hu; apply inv_exp).
  rewrite Hdx, Hu, Hdtf in *.
  assert (Hspread : exp x - exp (- x) > 0).
  { assert (Hge : exp (- x) <= exp x) by (apply exp_le; lra).
    destruct (Rle_lt_or_eq_dec _ _ Hge) as [Hlt | Heq]; [lra | ].
    exfalso. rewrite Heq in Htol.
    replace (exp x - exp x) with 0 in Htol by lra. rewrite Rabs_R0 in Htol. lra. }
  pose proof (exp_increasing _ _ Hcarry) as Hbig.
  set (frac := (exp ((r - q) * time_increment T n) - exp (- x))
               / (exp x - exp (- x))) in *.
  assert (Hf : 1 < frac).
  { unfold frac. apply (Rmult_lt_reg_r (exp x - exp (- x))); [lra | ].
    unfold Rdiv. rewrite Rmult_assoc, Rinv_l by lra. lra. }
  assert (Hsq : 1 < frac ^ 2) by nra.
  rewrite Hpd, Hpm, Hpu. lra.
Qed.

Lemma middle_probability_negative_beyond_one_move_witness :
  Step.p_m (trinomial_single_step 100 100 3 1 1 0 2 "CE") < 0.
Proof.
  assert (Hdt : 0 < time_increment 1 2) by (rewrite time_increment_1_2; lra).
  assert (Htol : Rabs (Step.u (trinomial_single_step 100 100 3 1 1 0 2 "CE")
                       - Step.d (trinomial_single_step 100 100 3 1 1 0 2 "CE"))
                 >= 1e-14).
  { destruct (step_factors 100 100 3 1 1 0 2 "CE" Hdt) as (_ & _ & Hu & Hd & _).
    rewrite Hd, Hu, time_increment_1_2, sqrt_2_half, Rmult_1_r.
    exact spread_at_exp_1. }
  apply (middle_probability_negative_beyond_one_move
           100 100 3 1 1 0 2 "CE" Hdt); [lra | | exact Htol].
  rewrite time_increment_1_2, sqrt_2_half. lra.
Defined.

Lemma discount_factor_bounds (r dt : R) :
  0 <= r -> 0 < dt -> 0 < exp (- r * dt) <= 1.
Proof.
  intros Hr Hdt. split; [apply exp_pos | ].
  rewrite <- exp_0. apply exp_le.
  assert (0 <= r * dt) by (apply Rmult_le_pos; lra). lra.
Qed.

(** X18: with [r >= 0] and the carry within one up-move, the root value is
    at least 0 and at most the largest of the three payoffs. *)
Theorem root_value_bounds
    (S K r sigma T q : R) (n : Z) (option_type : string) :
  0 < time_increment T n -> 0 <= r ->
  Rabs ((r - q) * time_increment T n)
  <= sigma * sqrt (2 * time_increment T n) ->
  let res := trinomial_single_step S K r sigma T q n option_type in
  0 <= Step.option_value_at_root res
  <= Rmax (Step.payoff_up res) (Rmax (Step.payoff_mid res) (Step.payoff_down res)).
Proof.
  intros Hdt Hr Hcarry res.
  destruct (step_factors S K r sigma T q n option_type Hdt)
    as (_ & _ & _ & _ & _ & Hdf & _).
  destruct (step_valuation S K r sigma T q n option_type Hdt)
    as (Hyu & Hym & Hyd & Hroot).
  pose proof (step_probabilities_sum S K r sigma T q n option_type Hdt) as Hsum.
  pose proof (step_probabilities_in_range S K r sigma T q n option_type Hdt Hcarry)
    as (Hpu & Hpm & Hpd).
  cbv zeta in Hsum.
  fold res in Hdf, Hyu, Hym, Hyd, Hroot, Hsum, Hpu, Hpm, Hpd.
  pose proof (discount_factor_bounds r _ Hr Hdt) as Hdfb. rewrite <- Hdf in Hdfb.
  pose proof (spec_payoff_nonneg option_type (Step.price_up res) K) as Hu0.
  pose proof (spec_payoff_nonneg option_type (Step.price_mid res) K) as Hm0.
  pose proof (spec_payoff_nonneg option_type (Step.price_down res) K) as Hd0.
  rewrite <- Hyu in Hu0. rewrite <- Hym in Hm0. rewrite <- Hyd in Hd0.
  set (M := Rmax (Step.payoff_up res)
                 (Rmax (Step.payoff_mid res) (Step.payoff_down res))).
  assert (HMu : Step.payoff_up res <= M) by apply Rmax_l.
  assert (HMm : Step.payoff_mid res <= M).
  { eapply Rle_trans; [apply Rmax_l | apply Rmax_r]. }
  assert (HMd : Step.payoff_down res <= M).
  { eapply Rle_trans; [apply (Rmax_r (Step.payoff_mid res)) | apply Rmax_r]. }
  set (E := Step.p_u res * Step.payoff_up res
            + Step.p_m res * Step.payoff_mid res
            + Step.p_d res * Step.payoff_down res) in *.
  assert (HE : 0 <= E <= M).
  { unfold E. split; [nra | ].
    replace M with ((Step.p_u res + Step.p_m res + Step.p_d res) * M)
      by (rewrite Hsum; lra).
    nra. }
  rewrite Hroot. split; [nra | ]. nra.
Qed.

Lemma root_value_bounds_witness :
  0 <= Step.option_value_at_root
         (trinomial_single_step 100 100 MANUAL_RISK_FREE_RATE 1 1 0 2 "PE").
Proof.
  assert (Hdt : 0 < time_increment 1 2) by (rewrite time_increment_1_2; lra).
  apply (root_value_bounds 100 100 MANUAL_RISK_FREE_RATE 1 1 0 2 "PE" Hdt).
  - unfold MANUAL_RISK_FREE_RATE. lra.
  - rewrite time_increment_1_2, sqrt_2_half. unfold MANUAL_RISK_FREE_RATE.
    rewrite Rabs_right by lra. lra.
Defined.

Lemma Rmax_scale (c x : R) : 0 <= c -> Rmax 0 (c * x) = c * Rmax 0 x.
Proof.
  intros Hc. rewrite <- (Rmult_0_r c) at 1. apply RmaxRmult. exact Hc.
Qed.

(** X19: the pricer is homogeneous in spot and strike: scaling both by
    [c >= 0] leaves the probabilities unchanged and scales the node prices,
    the payoffs and the root value by [c]. *)
Theorem pricer_scales_with_spot_and_strike
    (c S K r sigma T q : R) (n : Z) (option_type : string) :
  0 <= c ->
  let res := trinomial_single_step S K r sigma T q n option_type in
  let scaled := trinomial_single_step (c * S) (c * K) r sigma T q n option_type in
  Step.p_u scaled = Step.p_u res /\ Step.p_m scaled = Step.p_m res
  /\ Step.p_d scaled = Step.p_d res
  /\ Step.price_up scaled = c * Step.price_up res
  /\ Step.price_mid scaled = c * Step.price_mid res
  /\ Step.price_down scaled = c * Step.price_down res
  /\ Step.payoff_up scaled = c * Step.payoff_up res
  /\ Step.payoff_mid scaled = c * Step.payoff_mid res
  /\ Step.payoff_down scaled = c * Step.payoff_down res
  /\ Step.option_value_at_root scaled = c * Step.option_value_at_root res.
Proof.
  intros Hc. cbv zeta. unfold trinomial_single_step.
  destruct (Rle_dec (time_increment T n) 0).
  - cbn. repeat split; lra.
  - split_on_tolerance; split_on_side; cbn;
      repeat match goal with
             | |- context [Rmax 0 (c * ?a * ?b - c * K)] =>
                 replace (c * a * b - c * K) with (c * (a * b - K)) by lra;
                 rewrite (Rmax_scale c (a * b - K) Hc)
             | |- context [Rmax 0 (c * K - c * ?a * ?b)] =>
                 replace (c * K - c * a * b) with (c * (K - a * b)) by lra;
                 rewrite (Rmax_scale c (K - a * b) Hc)
             end;
      repeat split; lra.
Qed.

Lemma pricer_scales_with_spot_and_strike_witness :
  Step.option_value_at_root
    (trinomial_single_step (2 * 100) (2 * 90) MANUAL_RISK_FREE_RATE 1 1 0 2 "CE")
  = 2 * Step.option_value_at_root
          (trinomial_single_step 100 90 MANUAL_RISK_FREE_RATE 1 1 0 2 "CE").
Proof.
  assert (Hc : 0 <= 2) by lra.
  pose proof (pricer_scales_with_spot_and_strike
                2 100 90 MANUAL_RISK_FREE_RATE 1 1 0 2 "CE" Hc) as H.
  cbv zeta in H. tauto.
Defined.

(** ** Trinomial_tree_price *)

Lemma step_n (S K r sigma T q : R) (n : Z) (option_type : string) :
  Step.n (trinomial_single_step S K r sigma T q n option_type) = n.
Proof.
  unfold trinomial_single_step.
  destruct (Rle_dec (time_increment T n) 0); [reflexivity | ].
  split_on_tolerance; split_on_side; reflexivity.
Qed.

(** X20: [trinomial_tree_price] returns one result per requested step
    count, in order, each carrying its step count; a volatility that is not
    positive is priced exactly as the volatility 0.01. *)
Theorem tree_price_one_result_per_step_count
    (S K r sigma T q : R) (n_values : list Z) (option_type : string) :
  let results := trinomial_tree_price S K r sigma T q n_values option_type in
  map Step.n results = n_values
  /\ List.length results = List.length n_values
  /\ (sigma <= 0 ->
      results = trinomial_tree_price S K r 0.01 T q n_values option_type).
Proof.
  cbv zeta. unfold trinomial_tree_price. split; [ | split].
  - rewrite map_map. rewrite (map_ext _ (fun n => n)); [apply map_id | ].
    intros n. apply step_n.
  - apply length_map.
  - intros Hs. destruct (Rle_dec sigma 0) as [_ | Hn]; [ | contradiction].
    destruct (Rle_dec 0.01 0) as [Hbad | _]; [lra | reflexivity].
Qed.

Lemma tree_price_one_result_per_step_count_witness :
  trinomial_tree_price 100 90 MANUAL_RISK_FREE_RATE (-1) 1 0 [4; 10]%Z "CE"
  = trinomial_tree_price 100 90 MANUAL_RISK_FREE_RATE 0.01 1 0 [4; 10]%Z "CE".
Proof.
  apply (proj2 (proj2 (tree_price_one_result_per_step_count
                         100 90 MANUAL_RISK_FREE_RATE (-1) 1 0 [4; 10]%Z "CE"))).
  lra.
Defined.

(** With no time left every step is the degenerate one. *)
Lemma tree_price_degenerate
    (S K r sigma q : R) (n_values : list Z) (option_type : string) :
  Forall (fun res =>
            Step.option_value_at_root res = 0
            /\ Step.price_up res = S /\ Step.price_mid res = S
            /\ Step.price_down res = S
            /\ Step.p_u res + Step.p_m res + Step.p_d res = 0)
         (trinomial_tree_price S K r sigma 0 q n_values option_type).
Proof.
  unfold trinomial_tree_price. apply Forall_forall. intros res Hin.
  apply in_map_iff in Hin. destruct Hin as (n & <- & _).
  rewrite step_degenerate.
  - cbn. repeat split; lra.
  - apply time_increment_nonpos. right. unfold Rdiv. rewrite Rmult_0_l. lra.
Qed.

(** X21: with a time to expiry of 0 every result of [trinomial_tree_price]
    is degenerate whatever the step count: root value 0, the three prices
    equal to the spot, probabilities summing to 0. *)
Theorem tree_price_at_expiry_is_zero
    (S K r sigma q : R) (n_values : list Z) (option_type : string) :
  Forall (fun res =>
            Step.option_value_at_root res = 0
            /\ Step.price_up res = S /\ Step.price_mid res = S
            /\ Step.price_down res = S
            /\ Step.p_u res + Step.p_m res + Step.p_d res = 0)
         (trinomial_tree_price S K r sigma 0 q n_values option_type).
Proof. apply tree_price_degenerate. Qed.

(** ** Determine_n_steps *)

(** X12: every schedule [determine_n_steps] returns is strictly increasing,
    has between 4 and 6 step counts, and all of them lie between 4 and 400
    (so none is zero). *)
Theorem schedule_well_formed (IV T : R) (is_index is_atm : bool) :
  let steps := determine_n_steps IV T is_index is_atm in
  StronglySorted Z.lt steps
  /\ Forall (fun n => (4 <= n <= 400)%Z) steps
  /\ (4 <= List.length steps <= 6)%nat.
Proof.
  cbv zeta. unfold determine_n_steps.
  destruct (Rgt_dec IV 0.4); [ | destruct (Rgt_dec IV 0.2);
    [ | destruct (Rgt_dec IV 0.1); [ | destruct (Rlt_dec T 0.05);
      [ | destruct (is_index && is_atm) ] ] ] ];
    (split; [repeat (constructor; [ | repeat (constructor; [lia | ]); constructor]);
             constructor
            | split; [repeat (constructor; [lia | ]); constructor | cbn; lia] ]).
Qed.

(** ** Get_nearest_iv *)

Lemma get_nearest_iv_best
    (strike_price : R) (option_chain : list contract) (option_type : string) :
  get_nearest_iv strike_price option_chain option_type
  = match best_candidate (strike_distance strike_price) option_type option_chain with
    | Some c => quote_of option_type c
    | None => None
    end.
Proof.
  unfold get_nearest_iv.
  rewrite first_positive_iv_first_valid, first_valid_sorted. reflexivity.
Qed.

(** X10: when a contract at exactly the requested strike quotes a usable
    implied volatility on the requested side, [get_nearest_iv] returns that
    strike, with a positive volatility. *)
Theorem exact_strike_is_preferred
    (strike_price : R) (option_chain : list contract) (option_type : string)
    (c : contract) :
  In c option_chain -> strikePrice c = strike_price ->
  valid_iv option_type c <> None ->
  exists nearest_iv : R,
    get_nearest_iv strike_price option_chain option_type
    = Some (nearest_iv, strike_price)
    /\ 0 < nearest_iv.
Proof.
  intros Hin Hstrike Hvalid. rewrite get_nearest_iv_best.
  destruct (best_candidate (strike_distance strike_price) option_type option_chain)
    as [b | ] eqn:Hbest.
  - destruct (best_candidate_nearest _ _ _ _ Hbest) as (i & _ & Hvb & Hmin).
    destruct (In_nth_error _ _ Hin) as [j Hj].
    assert (Hkc : strike_distance strike_price c = 0).
    { unfold strike_distance. rewrite Hstrike.
      replace (strike_price - strike_price) with 0 by lra. apply Rabs_R0. }
    assert (Hkb : strike_distance strike_price b = 0).
    { pose proof (Rabs_pos (strikePrice b - strike_price)) as Hpos.
      fold (strike_distance strike_price b) in Hpos.
      destruct (Hmin j c Hj Hvalid) as [Hlt | [Heq _]]; lra. }
    assert (Hsb : strikePrice b = strike_price).
    { unfold strike_distance in Hkb.
      destruct (Req_dec (strikePrice b - strike_price) 0) as [E | E]; [lra | ].
      pose proof (Rabs_pos_lt _ E). lra. }
    unfold quote_of. destruct (valid_iv option_type b) as [p | ] eqn:Hp;
      [ | contradiction].
    exists (p / 100). rewrite Hsb. split; [reflexivity | ].
    pose proof (valid_iv_positive _ _ _ Hp). lra.
  - exfalso. apply Hvalid.
    apply (proj1 (best_candidate_none _ _ _) Hbest). exact Hin.
Qed.

Lemma exact_strike_is_preferred_witness :
  exists nearest_iv : R,
    get_nearest_iv 105 example_chain "CE" = Some (nearest_iv, 105)
    /\ 0 < nearest_iv.
Proof.
  apply (exact_strike_is_preferred 105 example_chain "CE"
           (mkcontract "27-Nov-2025" 105 (Some (mkside 102 (IvNumber 18))) None)).
  - right. left. reflexivity.
  - reflexivity.
  - unfold valid_iv. cbn. destruct (Rlt_dec 0 18); [discriminate | lra].
Defined.

Lemma best_candidate_filter (key : contract -> R) (option_type : string)
    (l : list contract) :
  best_candidate key option_type (filter (qualifies option_type) l)
  = best_candidate key option_type l.
Proof.
  induction l as [ | x l IH]; [reflexivity | ].
  cbn [filter best_candidate]. unfold qualifies at 1.
  destruct (valid_iv option_type x) as [p | ] eqn:Hx.
  - cbn [best_candidate]. rewrite Hx, IH. reflexivity.
  - exact IH.
Qed.

(** X11: contracts without a usable implied volatility on the requested
    side never influence [get_nearest_iv]: the result on the chain is the
    result on the sub-chain of the qualifying contracts. *)
Theorem unusable_contracts_do_not_matter
    (strike_price : R) (option_chain : list contract) (option_type : string) :
  get_nearest_iv strike_price (filter (qualifies option_type) option_chain)
                 option_type
  = get_nearest_iv strike_price option_chain option_type.
Proof.
  rewrite !get_nearest_iv_best, best_candidate_filter. reflexivity.
Qed.

(** ** Volatility resolution *)

(** The resolved volatility, in all cases. *)
Lemma resolve_iv_shape
    (chain_data : list contract) (strike_price : R) (opt_type : string)
    (opt_data : option_data) :
  exists (iv_raw iv_decimal : R) (used_iv_status : string),
    resolve_iv chain_data strike_price opt_type opt_data
    = (iv_raw, iv_decimal, used_iv_status)
    /\ 0 < iv_decimal
    /\ (0 < iv_raw -> iv_decimal = iv_raw / 100)
    /\ (iv_raw <= 0 -> iv_decimal = 0.01)
    /\ (used_iv_status = "REAL"%string \/ used_iv_status = "FAKE"%string)
    /\ (used_iv_status = "FAKE"%string
        <-> (match impliedVolatility opt_data with
             | IvNumber x => x <= 0
             | _ => True
             end
             /\ get_nearest_iv strike_price chain_data opt_type <> None)).
Proof.
  destruct (resolve_iv_cases chain_data strike_price opt_type opt_data)
    as (Hreal & Hfake & Hfloor).
  cbv zeta in Hreal, Hfake, Hfloor.
  set (quoted := match impliedVolatility opt_data with
                 | IvNumber x => x
                 | _ => 0
                 end) in *.
  assert (Hq : match impliedVolatility opt_data with
               | IvNumber x => x <= 0
               | _ => True
               end <-> quoted <= 0).
  { unfold quoted. destruct (impliedVolatility opt_data); split; intros; try lra; exact I. }
  destruct (Rle_dec quoted 0) as [Hle | Hgt].
  - destruct (get_nearest_iv strike_price chain_data opt_type)
      as [[nearest_iv nearest_strike] | ] eqn:Hnear.
    + rewrite (Hfake Hle _ _ eq_refl).
      destruct (get_nearest_iv_found _ _ _ _ _ Hnear)
        as (i & c & iv_perc & _ & _ & Hpos & -> & _).
      do 3 eexists. split; [reflexivity | ].
      split; [lra | ]. split; [intros _; reflexivity | ]. split; [lra | ].
      split; [right; reflexivity | ].
      split; [intros _; split; [apply Hq; exact Hle | discriminate] | reflexivity].
    + rewrite (Hfloor Hle eq_refl).
      do 3 eexists. split; [reflexivity | ].
      split; [lra | ]. split; [lra | ]. split; [reflexivity | ].
      split; [left; reflexivity | ].
      split; [discriminate | intros [_ Hc]; exfalso; apply Hc; reflexivity].
  - assert (Hpos : 0 < quoted) by lra. rewrite (Hreal Hpos).
    do 3 eexists. split; [reflexivity | ].
    split; [lra | ]. split; [reflexivity | ]. split; [lra | ].
    split; [left; reflexivity | ].
    split; [discriminate | intros [Hc _]; apply Hq in Hc; lra].
Qed.

(** X22: the volatility resolution always yields a positive decimal
    volatility ([iv_raw / 100] when [iv_raw] is positive, the floor 0.01
    otherwise), so the pricer's own floor never fires; the label is REAL or
    FAKE, and it is FAKE exactly when the quoted value is missing,
    unparseable or not positive and a sibling value is found. *)
Theorem resolved_volatility_is_positive
    (chain_data : list contract) (strike_price : R) (opt_type : string)
    (opt_data : option_data) :
  exists (iv_raw iv_decimal : R) (used_iv_status : string),
    resolve_iv chain_data strike_price opt_type opt_data
    = (iv_raw, iv_decimal, used_iv_status)
    /\ 0 < iv_decimal
    /\ (0 < iv_raw -> iv_decimal = iv_raw / 100)
    /\ (iv_raw <= 0 -> iv_decimal = 0.01)
    /\ (used_iv_status = "REAL"%string \/ used_iv_status = "FAKE"%string)
    /\ (used_iv_status = "FAKE"%string
        <-> (match impliedVolatility opt_data with
             | IvNumber x => x <= 0
             | _ => True
             end
             /\ get_nearest_iv strike_price chain_data opt_type <> None)).
Proof. apply resolve_iv_shape. Qed.

(** ** The orchestrator *)

Open Scope Z_scope.

Lemma tree_price_n
    (S K r sigma T q : R) (n_values : list Z) (option_type : string) :
  map Step.n (trinomial_tree_price S K r sigma T q n_values option_type)
  = n_values.
Proof.
  unfold trinomial_tree_price.
  rewrite map_map. rewrite (map_ext _ (fun n => n)); [apply map_id | ].
  intros n. apply step_n.
Qed.

Lemma schedule_length (IV T : R) (is_index is_atm : bool) :
  (4 <= List.length (determine_n_steps IV T is_index is_atm) <= 6)%nat.
Proof.
  unfold determine_n_steps.
  destruct (Rgt_dec IV 0.4); [cbn; lia | ].
  destruct (Rgt_dec IV 0.2); [cbn; lia | ].
  destruct (Rgt_dec IV 0.1); [cbn; lia | ].
  destruct (Rlt_dec T 0.05); [cbn; lia | ].
  destruct (is_index && is_atm); cbn; lia.
Qed.

Lemma lookup_side_type (c : contract) (opt_type : string) (opt_data : option_data) :
  lookup_side c opt_type = Some opt_data ->
  opt_type = "CE" \/ opt_type = "PE".
Proof.
  unfold lookup_side.
  destruct (String.eqb_spec opt_type "CE") as [-> | _]; [left; reflexivity | ].
  destruct (String.eqb_spec opt_type "PE") as [-> | _]; [right; reflexivity | ].
  discriminate.
Qed.

Lemma raw_days_left_nonneg (today : date) (expiry_str : string) :
  0 <= raw_days_left_of today expiry_str.
Proof.
  unfold raw_days_left_of. destruct (strptime expiry_str) as [expiry_d | ]; [ | lia].
  cbv zeta. destruct (Z.ltb_spec (toordinal expiry_d - toordinal today) 0); lia.
Qed.

(** What [price_side] builds. *)
Lemma price_side_fields (symbol : string) (today : date)
    (chain_data : list contract) (contract : contract)
    (opt_type : string) (opt_data : option_data) (obj : Priced.t) :
  price_side symbol today chain_data contract opt_type opt_data = Ok obj ->
  exists (T : R) (fraction_str : string) (days_left : Z)
         (iv_raw iv_decimal : R) (used_iv_status : string),
    calculate_time_to_expiry TOTAL_TRADING_DAYS_2025 today (expiryDate contract)
    = Ok (T, fraction_str, days_left)
    /\ resolve_iv chain_data (strikePrice contract) opt_type opt_data
       = (iv_raw, iv_decimal, used_iv_status)
    /\ obj = Priced.mk (string_map upper symbol) opt_type
                       (expiryDate contract, T, fraction_str)
                       (raw_days_left_of today (expiryDate contract))
                       days_left fraction_str
                       (strikePrice contract) (underlyingValue opt_data)
                       (iv_raw, iv_decimal, used_iv_status)
                       MANUAL_RISK_FREE_RATE MANUAL_DIVIDEND_YIELD
                       (trinomial_tree_price
                          (underlyingValue opt_data) (strikePrice contract)
                          MANUAL_RISK_FREE_RATE iv_decimal T
                          MANUAL_DIVIDEND_YIELD
                          (determine_n_steps iv_decimal T true true) opt_type).
Proof.
  unfold price_side.
  destruct (calculate_time_to_expiry TOTAL_TRADING_DAYS_2025 today
              (expiryDate contract)) as [[[T fraction_str] days_left] | e];
    [ | discriminate].
  cbn [bind].
  destruct (resolve_iv chain_data (strikePrice contract) opt_type opt_data)
    as [[iv_raw iv_decimal] used_iv_status].
  intros Hobj. apply Ok_inj in Hobj. subst obj.
  do 6 eexists. split; [reflexivity | ]. split; reflexivity.
Qed.

Lemma price_sides_origin (symbol : string) (today : date)
    (chain_data : list contract) (contract : contract) :
  In contract chain_data ->
  forall (opt_types : list string) (all_results results : list Priced.t),
    Forall (output_of symbol today chain_data) all_results ->
    price_sides symbol today chain_data contract opt_types all_results
    = Ok results ->
    Forall (output_of symbol today chain_data) results.
Proof.
  intros Hin opt_types.
  induction opt_types as [ | opt_type rest IH]; intros all_results results Hall;
    cbn [price_sides].
  - intros Hrun. apply Ok_inj in Hrun. subst results. exact Hall.
  - destruct (lookup_side contract opt_type) as [opt_data | ] eqn:Hside;
      [ | apply IH; exact Hall].
    destruct (price_side symbol today chain_data contract opt_type opt_data)
      as [obj | e] eqn:Hobj; [ | discriminate].
    cbn [bind]. apply IH. apply Forall_app. split; [exact Hall | ].
    constructor; [ | constructor].
    exists contract, opt_type, opt_data. repeat split; assumption.
Qed.

Lemma price_contracts_origin (symbol : string) (today : date)
    (chain_data : list contract) :
  forall (remaining : list contract) (all_results results : list Priced.t),
    incl remaining chain_data ->
    Forall (output_of symbol today chain_data) all_results ->
    price_contracts symbol today chain_data remaining all_results = Ok results ->
    Forall (output_of symbol today chain_data) results.
Proof.
  induction remaining as [ | contract rest IH]; intros all_results results Hincl Hall;
    cbn [price_contracts].
  - intros Hrun. apply Ok_inj in Hrun. subst results. exact Hall.
  - destruct (price_sides symbol today chain_data contract ["CE"; "PE"] all_results)
      as [results1 | e] eqn:Hsides; [ | discriminate].
    cbn [bind]. apply IH.
    + intros c Hc. apply Hincl. right. exact Hc.
    + apply (price_sides_origin symbol today chain_data contract
               (Hincl contract (or_introl eq_refl)) _ _ _ Hall Hsides).
Qed.

(** Every output of the batch is the object of one side of one contract. *)
Lemma fetch_and_calculate_origin (symbol : string) (today : date)
    (chain_data : list contract) (results : list Priced.t) :
  fetch_and_calculate symbol today chain_data = Ok results ->
  Forall (output_of symbol today chain_data) results.
Proof.
  unfold fetch_and_calculate.
  apply price_contracts_origin; [apply incl_refl | constructor].
Qed.

Lemma output_of_well_formed (symbol : string) (today : date)
    (chain_data : list contract) (obj : Priced.t) :
  output_of symbol today chain_data obj -> well_formed_output symbol obj.
Proof.
  intros (contract & opt_type & opt_data & _ & Hside & Hobj).
  destruct (price_side_fields _ _ _ _ _ _ _ Hobj)
    as (T & fraction_str & days_left & iv_raw & iv_decimal & used_iv_status
        & Hcalc & Hiv & ->).
  destruct (time_to_expiry_shape TOTAL_TRADING_DAYS_2025 today (expiryDate contract))
    as (T' & f' & d' & Hcalc' & Hdays & HT & _).
  rewrite Hcalc in Hcalc'. apply Ok_inj in Hcalc'.
  injection Hcalc' as <- <- <-.
  destruct (resolve_iv_shape chain_data (strikePrice contract) opt_type opt_data)
    as (raw' & dec' & st' & Hiv' & Hpos & _ & _ & Hst & _).
  rewrite Hiv in Hiv'. injection Hiv' as <- <- <-.
  unfold well_formed_output. cbn.
  split; [reflexivity | ].
  split; [exact (lookup_side_type _ _ _ Hside) | ].
  split; [reflexivity | ]. split; [reflexivity | ].
  split; [apply raw_days_left_nonneg | ]. split; [exact Hdays | ].
  split; [exact HT | ]. split; [exact Hpos | ]. split; [exact Hst | ].
  split; [apply tree_price_n | ].
  rewrite <- (length_map Step.n), tree_price_n. apply schedule_length.
Qed.

(** X23: every output of [fetch_and_calculate] is well formed: upper-cased
    symbol, side CE or PE, the configured rate and yield, day counts and
    time to expiry that are not negative, a positive decimal volatility
    labelled REAL or FAKE, and one pricing step per step count of the
    schedule selected for that volatility and time, between 4 and 6 of
    them. *)
Theorem outputs_are_well_formed (symbol : string) (today : date)
    (chain_data : list contract) (results : list Priced.t) :
  fetch_and_calculate symbol today chain_data = Ok results ->
  Forall (well_formed_output symbol) results.
Proof.
  intros Hrun. eapply Forall_impl; [ | apply (fetch_and_calculate_origin _ _ _ _ Hrun)].
  intros obj. apply output_of_well_formed.
Qed.

(** X24: an output with no trading day left (expiry passed, not in 2025, or
    unparseable) has a time to expiry of 0 and only degenerate pricing
    steps: every root value is 0 and every node price is the spot. *)
Theorem no_trading_days_left_gives_zero_values (symbol : string) (today : date)
    (chain_data : list contract) (results : list Priced.t) :
  fetch_and_calculate symbol today chain_data = Ok results ->
  Forall (fun obj =>
            Priced.days_to_expiry obj = 0 ->
            snd (fst (Priced.expiry_date obj)) = 0%R
            /\ Forall (fun step =>
                         Step.option_value_at_root step = 0%R
                         /\ Step.price_up step = Priced.S obj
                         /\ Step.price_mid step = Priced.S obj
                         /\ Step.price_down step = Priced.S obj)
                      (Priced.pricing_steps obj))
         results.
Proof.
  intros Hrun. eapply Forall_impl; [ | apply (fetch_and_calculate_origin _ _ _ _ Hrun)].
  intros obj (contract & opt_type & opt_data & _ & Hside & Hobj).
  destruct (price_side_fields _ _ _ _ _ _ _ Hobj)
    as (T & fraction_str & days_left & iv_raw & iv_decimal & used_iv_status
        & Hcalc & Hiv & ->).
  destruct (time_to_expiry_shape TOTAL_TRADING_DAYS_2025 today (expiryDate contract))
    as (T' & f' & d' & Hcalc' & _ & _ & Hzero).
  rewrite Hcalc in Hcalc'. apply Ok_inj in Hcalc'.
  injection Hcalc' as <- <- <-.
  cbn. intros Hd. rewrite (Hzero Hd). split; [reflexivity | ].
  eapply Forall_impl; [ | apply tree_price_degenerate].
  cbn. intros step (Hroot & Hup & Hmid & Hdown & _). repeat split; assumption.
Qed.

(** ** Remaining witnesses *)

Lemma holidays_2025_consistent_witness :
  FIRST_DAY_2025 <= toordinal (mkdate 2025 12 25) <= LAST_DAY_2025
  /\ weekday (toordinal (mkdate 2025 12 25)) < 5.
Proof.
  apply (proj1 (proj2 (proj2 holidays_2025_consistent))).
  vm_compute. tauto.
Defined.

Lemma calculate_time_to_expiry_nonnegative_witness :
  exists (T : R) (frac_str : string) (days_left : Z),
    calculate_time_to_expiry 247 (mkdate 2025 11 3) "27-Nov-2024"
    = Ok (T, frac_str, days_left)
    /\ T = 0%R.
Proof.
  destruct (calculate_time_to_expiry_nonnegative
              247 (mkdate 2025 11 3) "27-Nov-2024")
    as (T & frac_str & days_left & Hrun & _ & _ & Hzero).
  exists T, frac_str, days_left. split; [exact Hrun | ].
  apply Hzero.
  assert (E : calculate_time_to_expiry 247 (mkdate 2025 11 3) "27-Nov-2024"
              = Ok (0%R, "0/0", 0)) by reflexivity.
  rewrite E in Hrun. apply Ok_inj in Hrun. congruence.
Defined.

Lemma put_call_parity_at_nodes_witness :
  let call := trinomial_single_step 100 90 MANUAL_RISK_FREE_RATE 1 1 0 2 "CE" in
  let put := trinomial_single_step 100 90 MANUAL_RISK_FREE_RATE 1 1 0 2 "PE" in
  (Step.payoff_up call - Step.payoff_up put = Step.price_up call - 90)%R.
Proof.
  assert (Hdt : (0 < time_increment 1 2)%R) by (rewrite time_increment_1_2; lra).
  assert (Hput : "PE" <> "CE") by discriminate.
  exact (proj1 (put_call_parity_at_nodes
                  100 90 MANUAL_RISK_FREE_RATE 1 1 0 2 "PE" Hdt Hput)).
Defined.

Lemma resolved_volatility_is_positive_witness :
  exists (iv_raw iv_decimal : R) (used_iv_status : string),
    resolve_iv unquoted_chain 100 "CE" (mkside 100 (IvNumber 0))
    = (iv_raw, iv_decimal, used_iv_status)
    /\ used_iv_status <> "FAKE".
Proof.
  destruct (resolved_volatility_is_positive
              unquoted_chain 100 "CE" (mkside 100 (IvNumber 0)))
    as (iv_raw & iv_decimal & used_iv_status & Hrun & _ & _ & _ & _ & Hfake).
  exists iv_raw, iv_decimal, used_iv_status. split; [exact Hrun | ].
  intros Hst. apply Hfake in Hst. destruct Hst as [_ Hnear].
  apply Hnear. exact unquoted_chain_no_nearest.
Defined.

Lemma outputs_are_well_formed_witness :
  exists results : list Priced.t,
    fetch_and_calculate "nifty" (mkdate 2025 11 3) example_chain = Ok results
    /\ Forall (well_formed_output "nifty") results.
Proof.
  destruct (price_contracts_outputs
              "nifty" (mkdate 2025 11 3) example_chain example_chain [])
    as (results & Hrun & _).
  exists results. split; [exact Hrun | ].
  exact (outputs_are_well_formed _ _ _ _ Hrun).
Defined.

Lemma no_trading_days_left_gives_zero_values_witness :
  exists results : list Priced.t,
    fetch_and_calculate "nifty" (mkdate 2025 12 1) example_chain = Ok results
    /\ Forall (fun obj =>
                 Priced.days_to_expiry obj = 0 ->
                 snd (fst (Priced.expiry_date obj)) = 0%R
                 /\ Forall (fun step =>
                              Step.option_value_at_root step = 0%R
                              /\ Step.price_up step = Priced.S obj
                              /\ Step.price_mid step = Priced.S obj
                              /\ Step.price_down step = Priced.S obj)
                           (Priced.pricing_steps obj))
              results.
Proof.
  destruct (price_contracts_outputs
              "nifty" (mkdate 2025 12 1) example_chain example_chain [])
    as (results & Hrun & _).
  exists results. split; [exact Hrun | ].
  exact (no_trading_days_left_gives_zero_values _ _ _ _ Hrun).
Defined.
